(** * A shallow embedding of the autograd tracing core

    Sources: [autograd/tracer.py] (trace stack, boxes and their type
    registry, the primitive wrapper, the multi-trace argument resolver, the
    notrace registry) and [autograd/wrap_util.py] (the unary-to-nary
    operator transform).

    Python values are modelled by a small universe ([value]); module-level
    mutable objects ([trace_stack], [Box.types], [Box.type_mappings],
    [notrace_primitives], the logger and the warnings channel) are fields
    of one explicit state, threaded through a state-and-exception monad. *)

From Stdlib Require Import ZArith List Bool Lia Sorted.
From stdpp Require Import gmap strings list fin_maps.

Local Open Scope Z_scope.

(** ** Runtime types and values *)

(** The result of Python's [type(x)]: a builtin type, or a user class
    (every [Box] subclass is one) identified by its name. *)
Inductive pytype : Type :=
| TNoneType
| TBool
| TInt
| TTuple
| TClass (name : string).

#[global] Instance pytype_eq_dec : EqDecision pytype.
Proof. solve_decision. Defined.

Definition pytype_encode (t : pytype) : nat + string :=
  match t with
  | TNoneType => inl 0%nat
  | TBool => inl 1%nat
  | TInt => inl 2%nat
  | TTuple => inl 3%nat
  | TClass name => inr name
  end.

Definition pytype_decode (c : nat + string) : pytype :=
  match c with
  | inl 0%nat => TNoneType
  | inl 1%nat => TBool
  | inl 2%nat => TInt
  | inl _ => TTuple
  | inr name => TClass name
  end.

#[global] Instance pytype_countable : Countable pytype.
Proof.
  apply (inj_countable' pytype_encode pytype_decode).
  intros []; reflexivity.
Defined.

(** A wrapped primitive is a function object, compared by identity (set
    membership in [notrace_primitives], the operation stored in a node);
    the identity is a number. *)
Definition prim_id : Type := nat.

(** Modelled from the spec: the node classes ([VJPNode], [JVPNode]) of
    autograd/core.py, which is not part of the sources.  Spec, section 3:
    a node has the fields value, operation, args, kwargs, tracked_argnums
    and parents, which are the arguments the primitive wrapper passes to
    the node constructor; a node is modelled by its class ([variant]) and
    those arguments, a root node by its class and the arguments of
    [initialize_root].

    Values: [None], booleans, integers, tuples, and boxes; a [VBox] is an
    instance of the [Box] subclass [cls] with its three slots [_value],
    [_trace] and [_node]. *)
#[warnings="-register-all"]
Inductive value : Type :=
| VNone
| VBool (b : bool)
| VInt (z : Z)
| VTuple (items : list value)
| VBox (cls : string) (v : value) (t : Z) (n : node)
with node : Type :=
| NRoot (variant : string) (root_args : list value)
| NCall (variant : string) (ans : value) (op : prim_id)
        (args : list value) (kwargs : list (string * value))
        (tracked_argnums : list Z) (parents : list node).

Definition kwargs_t : Type := list (string * value).

(** [type(x)] *)
Definition py_type (x : value) : pytype :=
  match x with
  | VNone => TNoneType
  | VBool _ => TBool
  | VInt _ => TInt
  | VTuple _ => TTuple
  | VBox cls _ _ _ => TClass cls
  end.

(** [type(node)]: the node variant. *)
Definition node_type (n : node) : string :=
  match n with
  | NRoot variant _ => variant
  | NCall variant _ _ _ _ _ _ => variant
  end.

(** The slots of a box.  Python raises [AttributeError] on a value without
    the slot; every read in the sources is guarded by [isbox], so the
    accessors are only ever applied to a [VBox]. *)
Definition _value (x : value) : value :=
  match x with VBox _ v _ _ => v | _ => x end.

Definition _trace (x : value) : Z :=
  match x with VBox _ _ t _ => t | _ => -1 end.

Definition _node (x : value) : option node :=
  match x with VBox _ _ _ n => Some n | _ => None end.

(** [Node.new_root]: [cls.__new__(cls)] followed by [initialize_root] on
    the remaining arguments. *)
Definition new_root (cls : string) (root_args : list value) : node :=
  NRoot cls root_args.

(** ** Exceptions, state and the monad *)

Inductive exn : Type :=
| TypeError_cant_differentiate (ty : pytype)
  (* TypeError(f"Can't differentiate w.r.t. type {type(value)}") *)
| TypeError_not_callable   (* calling [None] as a node constructor *)
| TypeError_not_iterable   (* zip over a value that is not iterable *)
| IndexError
| RecursionError
| UserError (code : Z).    (* raised by a raw operation or a traced function *)

(** Records handed to [logger.info]. *)
Inductive log_record : Type :=
| LogNewTrace (t : Z) (x : value)
| LogCreatedBox (b : value).

Record tracer_state : Type := mk_state {
  top : Z;                                   (* trace_stack.top *)
  box_types : gset string;                   (* Box.types *)
  box_type_mappings : gmap pytype string;    (* Box.type_mappings *)
  notrace_primitives : gmap (option string) (gset prim_id);
                                             (* defaultdict(set) *)
  nodes_built : list node;   (* every node constructed, oldest first *)
  log : list log_record;     (* logger.info records, oldest first *)
  warnings : list string     (* warnings.warn messages, oldest first *)
}.

Definition set_top (z : Z) (s : tracer_state) : tracer_state :=
  mk_state z (box_types s) (box_type_mappings s) (notrace_primitives s)
           (nodes_built s) (log s) (warnings s).

Definition set_notrace (m : gmap (option string) (gset prim_id))
           (s : tracer_state) : tracer_state :=
  mk_state (top s) (box_types s) (box_type_mappings s) m
           (nodes_built s) (log s) (warnings s).

Definition add_node (n : node) (s : tracer_state) : tracer_state :=
  mk_state (top s) (box_types s) (box_type_mappings s) (notrace_primitives s)
           (nodes_built s ++ [n]) (log s) (warnings s).

Definition logger_info (r : log_record) (s : tracer_state) : tracer_state :=
  mk_state (top s) (box_types s) (box_type_mappings s) (notrace_primitives s)
           (nodes_built s) (log s ++ [r]) (warnings s).

Definition warnings_warn (msg : string) (s : tracer_state) : tracer_state :=
  mk_state (top s) (box_types s) (box_type_mappings s) (notrace_primitives s)
           (nodes_built s) (log s) (warnings s ++ [msg]).

(** The state at import time: [TraceStack.__init__] sets [top = -1], the
    registries are empty. *)
Definition initial_state : tracer_state :=
  mk_state (-1) ∅ ∅ ∅ [] [] [].

(** How a call ends: it returns a value or raises; either way the state
    changes made so far stay. *)
Inductive outcome (A : Type) : Type :=
| Return (a : A)
| Raise (e : exn).
Arguments Return {A} a.
Arguments Raise {A} e.

Definition M (A : Type) : Type := tracer_state -> outcome A * tracer_state.

Definition ret {A} (a : A) : M A := fun s => (Return a, s).
Definition raise {A} (e : exn) : M A := fun s => (Raise e, s).
Definition bind {A B} (c : M A) (k : A -> M B) : M B :=
  fun s => match c s with
           | (Return a, s') => k a s'
           | (Raise e, s') => (Raise e, s')
           end.
Definition gets {A} (f : tracer_state -> A) : M A := fun s => (Return (f s), s).
Definition modify (f : tracer_state -> tracer_state) : M unit :=
  fun s => (Return tt, f s).

Declare Scope tracer_scope.
Delimit Scope tracer_scope with tracer.
Notation "x <- c ;; k" := (bind c (fun x => k))
  (at level 100, c at next level, right associativity) : tracer_scope.
Notation "c ;;; k" := (bind c (fun _ => k))
  (at level 100, right associativity) : tracer_scope.
Local Open Scope tracer_scope.

(** ** tracer.py: TraceStack *)

(** [with trace_stack.new_trace() as t: body].  [new_trace] is a
    generator-based context manager:
<<
        self.top += 1
        yield self.top
        self.top -= 1
>>
    When [body] ends normally (a [return] inside the [with] included) the
    generator is resumed and the decrement runs.  When [body] raises, the
    exception is thrown into the generator at the [yield]; there is no
    [try]/[finally] around it, so the generator ends there, the decrement
    is skipped and the exception propagates. *)
Definition new_trace {A} (body : Z -> M A) : M A :=
  fun s =>
    let s1 := set_top (top s + 1) s in
    match body (top s1) s1 with
    | (Return a, s2) => (Return a, set_top (top s2 - 1) s2)
    | (Raise e, s2) => (Raise e, s2)
    end.

(** ** tracer.py: Box and its registry *)

(** [Box.register(cls, value_type)] *)
Definition register (cls : string) (value_type : pytype)
           (s : tracer_state) : tracer_state :=
  mk_state (top s)
           ({[cls]} ∪ box_types s)
           (<[TClass cls := cls]> (<[value_type := cls]> (box_type_mappings s)))
           (notrace_primitives s) (nodes_built s) (log s) (warnings s).

(** [isbox = lambda x: type(x) in box_types].  Only classes are ever added
    to [Box.types]. *)
Definition isbox (types : gset string) (x : value) : bool :=
  match x with
  | VBox cls _ _ _ => bool_decide (cls ∈ types)
  | _ => false
  end.

(** [getval = lambda x: getval(x._value) if isbox(x) else x] *)
Fixpoint getval (types : gset string) (x : value) : value :=
  match x with
  | VBox cls v _ _ => if bool_decide (cls ∈ types) then getval types v else x
  | _ => x
  end.

(** [new_box(value, trace, node)]: the lookup [box_type_mappings[type(value)]]
    raising [KeyError] is turned into the [TypeError]. *)
Definition new_box (v : value) (trace_id : Z) (n : node) : M value :=
  fun s =>
    match box_type_mappings s !! py_type v with
    | Some cls =>
        let out := VBox cls v trace_id n in
        (Return out, logger_info (LogCreatedBox out) s)
    | None => (Raise (TypeError_cant_differentiate (py_type v)), s)
    end.

(** [Box.__bool__]: [return bool(self._value)]; the builtin rules for the
    other values. *)
Fixpoint py_bool (x : value) : bool :=
  match x with
  | VNone => false
  | VBool b => b
  | VInt z => negb (z =? 0)
  | VTuple items => match items with [] => false | _ => true end
  | VBox _ v _ _ => py_bool v
  end.

(** ** Python sequence indexing *)

(** The position a Python index denotes in a sequence of length [n]:
    negative indices count from the end; [None] is [IndexError]. *)
Definition py_index (n : nat) (i : Z) : option nat :=
  if (0 <=? i) && (i <? Z.of_nat n) then Some (Z.to_nat i)
  else if (- Z.of_nat n <=? i) && (i <? 0) then Some (Z.to_nat (Z.of_nat n + i))
  else None.

(** [l[i]] *)
Definition py_getitem {A} (l : list A) (i : Z) : option A :=
  match py_index (length l) i with
  | Some k => l !! k
  | None => None
  end.

(** [l[i] = v] on a list *)
Definition py_setitem {A} (l : list A) (i : Z) (v : A) : option (list A) :=
  match py_index (length l) i with
  | Some k => Some (<[k := v]> l)
  | None => None
  end.

(** [enumerate(args)], from position [k] on. *)
Fixpoint enumerate_from {A} (k : nat) (l : list A) : list (Z * A) :=
  match l with
  | [] => []
  | a :: l' => (Z.of_nat k, a) :: enumerate_from (S k) l'
  end.

Definition enumerate {A} (l : list A) : list (Z * A) := enumerate_from 0 l.

(** Modelled from the spec: [subvals] of autograd/util.py, which is not
    part of the sources.  Spec 4.3 and 4.8: the argument list with the
    given positions substituted, one [(position, value)] pair after the
    other ([x_[i] = v] on a copy of the arguments); a position out of
    range is a lookup error ([None]). *)
Fixpoint subvals (x : list value) (ivs : list (Z * value)) : option (list value) :=
  match ivs with
  | [] => Some x
  | (i, v) :: ivs' =>
      match py_setitem x i v with
      | Some x' => subvals x' ivs'
      | None => None
      end
  end.

(** ** tracer.py: the multi-trace argument resolver *)

(** One iteration of the loop of [find_top_boxed_args] over
    [(top_boxes, top_trace, top_node_type)]. *)
Definition find_top_step (types : gset string)
           (acc : list (Z * value) * Z * option string) (ia : Z * value)
  : list (Z * value) * Z * option string :=
  let '(top_boxes, top_trace, top_node_type) := acc in
  let '(argnum, arg) := ia in
  match arg with
  | VBox cls _ trace_id n =>
      if isbox types arg then
        if trace_id >? top_trace then ([(argnum, arg)], trace_id, Some (node_type n))
        else if trace_id =? top_trace then
               (top_boxes ++ [(argnum, arg)], top_trace, top_node_type)
             else acc
      else acc
  | _ => acc
  end.

Definition find_top_boxed_args (types : gset string) (args : list value)
  : list (Z * value) * Z * option string :=
  fold_left (find_top_step types) (enumerate args) ([], -1, None).

(** ** tracer.py: the notrace registry *)

(** [notrace_primitives[trace_type]] on the [defaultdict(set)]: a missing
    key is inserted with an empty set. *)
Definition notrace_lookup (trace_type : option string) : M (gset prim_id) :=
  fun s =>
    match notrace_primitives s !! trace_type with
    | Some ops => (Return ops, s)
    | None => (Return ∅, set_notrace (<[trace_type := ∅]> (notrace_primitives s)) s)
    end.

(** [register_notrace(trace_type, primitive_fun)] *)
Definition register_notrace (trace_type : option string) (primitive_fun : prim_id)
           (s : tracer_state) : tracer_state :=
  set_notrace
    (<[trace_type := {[primitive_fun]} ∪ default ∅ (notrace_primitives s !! trace_type)]>
       (notrace_primitives s)) s.

(** ** tracer.py: the primitive wrapper *)

(** A raw operation together with the identity of its wrapped version. *)
Record primitive_fn : Type := mk_primitive {
  f_id : prim_id;
  f_raw : list value -> kwargs_t -> M value
}.

(** [node_constructor(ans, f_wrapped, argvals, kwargs, argnums, parents)],
    where [node_constructor] is [type(arg._node)] of the first tracked box,
    or [None]. *)
Definition call_node_constructor (node_constructor : option string)
           (ans : value) (f : prim_id) (argvals : list value) (kwargs : kwargs_t)
           (argnums : list Z) (parents : list node) : M node :=
  match node_constructor with
  | Some variant =>
      let n := NCall variant ans f argvals kwargs argnums parents in
      fun s => (Return n, add_node n s)
  | None => raise TypeError_not_callable
  end.

Definition lift_index {A} (o : option A) : M A :=
  match o with Some a => ret a | None => raise IndexError end.

(** The nodes of the boxes of a tracked list: [tuple(box._node for _, box in
    boxed_args)]. *)
Definition parents_of (boxed_args : list (Z * value)) : list node :=
  omap (fun ib => _node (snd ib)) boxed_args.

(** The body of [f_wrapped] of [primitive(f_raw)], applied to [args] and
    [kwargs]; [self] stands for the two calls the function makes to itself.
    The source's statements in order: resolve the arguments; on a non-empty
    tracked list build [argvals], test the notrace registry, and either
    return [f_wrapped] on [argvals] or compute [ans] the same way, build the
    node and box the answer; on an empty one call [f_raw]. *)
Definition f_wrapped_body (self : list value -> kwargs_t -> M value)
           (p : primitive_fn) (args : list value) (kwargs : kwargs_t) : M value :=
  types <- gets box_types ;;
  let '(boxed_args, trace_id, node_constructor) := find_top_boxed_args types args in
  match boxed_args with
  | _ :: _ =>
      argvals <- lift_index
                   (subvals args (map (fun ib => (fst ib, _value (snd ib))) boxed_args)) ;;
      ops <- notrace_lookup node_constructor ;;
      if bool_decide (f_id p ∈ ops) then
        self argvals kwargs
      else
        ans <- self argvals kwargs ;;
        let parents := parents_of boxed_args in
        let argnums := map fst boxed_args in
        n <- call_node_constructor node_constructor ans (f_id p)
                                   argvals kwargs argnums parents ;;
        new_box ans trace_id n
  | [] => f_raw p args kwargs
  end.

(** The recursion of [f_wrapped], [fuel] levels deep. *)
Fixpoint f_wrapped_fuel (fuel : nat) (p : primitive_fn)
         (args : list value) (kwargs : kwargs_t) : M value :=
  f_wrapped_body
    (match fuel with
     | O => fun _ _ => raise RecursionError
     | S fuel' => f_wrapped_fuel fuel' p
     end) p args kwargs.

(** Each call [f_wrapped] makes to itself has removed one layer of boxes
    from at least one argument, so the number of layers bounds the depth
    of the recursion ([f_wrapped_unfold] below). *)
Fixpoint box_depth (x : value) : nat :=
  match x with
  | VBox _ v _ _ => S (box_depth v)
  | _ => O
  end.

Definition args_depth (args : list value) : nat :=
  fold_right (fun a k => (box_depth a + k)%nat) O args.

Definition f_wrapped (p : primitive_fn) (args : list value) (kwargs : kwargs_t)
  : M value :=
  f_wrapped_fuel (args_depth args) p args kwargs.

(** ** tracer.py: the trace entry point *)

Definition trace (start_node : node) (fun_ : value -> M value) (x : value)
  : M (value * option node) :=
  new_trace (fun t =>
    modify (logger_info (LogNewTrace t x)) ;;;
    start_box <- new_box x t start_node ;;
    end_box <- fun_ start_box ;;
    types <- gets box_types ;;
    if isbox types end_box && (_trace end_box =? _trace start_box) then
      ret (_value end_box, _node end_box)
    else
      modify (warnings_warn "Output seems independent of input.") ;;;
      ret (end_box, None)).

(** ** tracer.py: [notrace_primitive] *)

(** [f_wrapped] of [notrace_primitive(f_raw)]: [argvals = map(getval, args)],
    then [f_raw] on [argvals] and the keyword arguments as they are. *)
Definition notrace_primitive (f_raw : list value -> kwargs_t -> M value)
           (args : list value) (kwargs : kwargs_t) : M value :=
  types <- gets box_types ;;
  f_raw (map (getval types) args) kwargs.

(** ** wrap_util.py: the unary-to-nary transform *)

(** [argnum: Union[int, tuple, list]] *)
Inductive argnum_t : Type :=
| ArgInt (i : Z)
| ArgSeq (l : list Z).

(** Iterating a value, as [zip] does with its second argument: a tuple
    yields its items; [None], numbers and a plain [Box] are not iterable. *)
Definition py_iter (x : value) : M (list value) :=
  match x with
  | VTuple items => ret items
  | _ => raise TypeError_not_iterable
  end.

(** [unary_f(x)], the closure over [fun], [argnum], [args] and [kwargs]. *)
Definition unary_f (fun_ : list value -> kwargs_t -> M value) (argnum : argnum_t)
           (args : list value) (kwargs : kwargs_t) (x : value) : M value :=
  subargs <- match argnum with
             | ArgInt i => lift_index (subvals args [(i, x)])
             | ArgSeq l => xs <- py_iter x ;; lift_index (subvals args (zip l xs))
             end ;;
  fun_ subargs kwargs.

(** The [x] that [nary_f] selects: [args[argnum]], or
    [tuple(args[i] for i in argnum)]. *)
Definition select_args (argnum : argnum_t) (args : list value) : option value :=
  match argnum with
  | ArgInt i => py_getitem args i
  | ArgSeq l => VTuple <$> mapM (py_getitem args) l
  end.

(** [nary_f], the closure over [unary_operator], [fun], [argnum] and the
    operator's extra arguments.  The decorator [wrap_nary_f] only sets
    [__name__] and [__doc__]. *)
Definition nary_f
           (unary_operator : (value -> M value) -> value -> list value -> kwargs_t -> M value)
           (fun_ : list value -> kwargs_t -> M value) (argnum : argnum_t)
           (nary_op_args : list value) (nary_op_kwargs : kwargs_t)
           (args : list value) (kwargs : kwargs_t) : M value :=
  x <- lift_index (select_args argnum args) ;;
  unary_operator (unary_f fun_ argnum args kwargs) x nary_op_args nary_op_kwargs.

(** [unary_to_nary(unary_operator)] is [nary_operator], and
    [nary_operator(fun, argnum, ...)] is [nary_f]. *)
Definition unary_to_nary
           (unary_operator : (value -> M value) -> value -> list value -> kwargs_t -> M value)
  := nary_f unary_operator.

(** ** Specification-side definitions *)

(** The trace ids of the boxed arguments, left to right. *)
Definition boxed_traces (types : gset string) (args : list value) : list Z :=
  map _trace (List.filter (isbox types) args).

(** The maximum trace id among the boxed arguments, [-1] when no argument
    is boxed. *)
Definition max_trace_id (types : gset string) (args : list value) : Z :=
  match boxed_traces types args with
  | [] => -1
  | t :: ts => fold_right Z.max t ts
  end.

(** The best-seen trace id of the scan, which starts from the sentinel. *)
Definition top_trace_of (types : gset string) (args : list value) : Z :=
  fold_right Z.max (-1) (boxed_traces types args).

(** A [(position, argument)] pair is tracked at trace id [m]. *)
Definition is_tracked (types : gset string) (m : Z) (ia : Z * value) : bool :=
  isbox types (snd ia) && (_trace (snd ia) =? m).

Definition tracked_pairs (types : gset string) (m : Z) (args : list value)
  : list (Z * value) :=
  List.filter (is_tracked types m) (enumerate args).

(** The node variant of the first pair of a tracked list. *)
Definition head_node_type (tracked : list (Z * value)) : option string :=
  match tracked with
  | [] => None
  | (_, b) :: _ => node_type <$> _node b
  end.

(** An argument with its box removed when it is tracked at [m]. *)
Definition unwrap_top (types : gset string) (m : Z) (a : value) : value :=
  if isbox types a && (_trace a =? m) then _value a else a.

(** Every value of [Box.type_mappings] is a class of [Box.types]: what
    [register] maintains. *)
Definition registry_ok (s : tracer_state) : Prop :=
  forall ty cls, box_type_mappings s !! ty = Some cls -> cls ∈ box_types s.

(** The operation [f] is registered as notrace for the node variant. *)
Definition is_notrace (trace_type : option string) (f : prim_id)
           (s : tracer_state) : Prop :=
  f ∈ default ∅ (notrace_primitives s !! trace_type).

(** The nodes of one variant among the nodes built. *)
Definition nodes_of_variant (variant : string) (l : list node) : list node :=
  List.filter (fun n => bool_decide (node_type n = variant)) l.

(** The tracked branch of [f_wrapped], after the resolver and [subvals]. *)
Definition tracked_branch (p : primitive_fn) (self : list value -> kwargs_t -> M value)
           (tracked : list (Z * value)) (m : Z) (nc : option string)
           (argvals : list value) (kwargs : kwargs_t) : M value :=
  ops <- notrace_lookup nc ;;
  if bool_decide (f_id p ∈ ops) then self argvals kwargs
  else
    ans <- self argvals kwargs ;;
    n <- call_node_constructor nc ans (f_id p) argvals kwargs
                               (map fst tracked) (parents_of tracked) ;;
    new_box ans m n.

(** The node constructor the resolver reports for [args]. *)
Definition resolved_constructor (types : gset string) (args : list value)
  : option string :=
  let m := top_trace_of types args in
  if -1 <? m then head_node_type (tracked_pairs types m args) else None.

(** The wrapper as the specification words its tracked path: the answer
    comes from the raw operation applied to [argvals] and [kwargs], with
    the boxes of outer traces left in [argvals] as opaque values. *)
Definition f_wrapped_raw_answer (p : primitive_fn) (args : list value)
           (kwargs : kwargs_t) : M value :=
  f_wrapped_body (f_raw p) p args kwargs.

(** The state in which the body of [trace] calls [fun]: the trace is
    entered, the start is logged. *)
Definition entered (x : value) (s : tracer_state) : tracer_state :=
  logger_info (LogNewTrace (top s + 1) x) (set_top (top s + 1) s).

(** Every index of [argnum] denotes a position of a sequence of length
    [n]. *)
Definition argnum_valid (n : nat) (argnum : argnum_t) : Prop :=
  match argnum with
  | ArgInt i => is_Some (py_index n i)
  | ArgSeq l => Forall (fun i => is_Some (py_index n i)) l
  end.

(** Zip-substitution: the positions [ks] of [args] replaced, in order, by
    the values paired with them. *)
Definition substitute_all (args : list value) (kvs : list (nat * value))
  : list value :=
  foldl (fun acc kv => <[fst kv := snd kv]> acc) args kvs.

(** Every layer of [x] that is a box carries a trace id issued by the trace
    stack and a node of a variant for which [f] is registered as notrace. *)
Fixpoint layers_notrace (types : gset string) (f : prim_id) (s : tracer_state)
         (x : value) : Prop :=
  match x with
  | VBox cls v t n =>
      if bool_decide (cls ∈ types)
      then 0 <= t /\ is_notrace (Some (node_type n)) f s /\ layers_notrace types f s v
      else True
  | _ => True
  end.

(** What a call leaves alone, from state [s] to state [s']: the trace
    stack, the box registry, the warnings and the notrace registrations
    are the same; nodes and log records are only appended. *)
Definition same_frame (s s' : tracer_state) : Prop :=
  top s' = top s
  /\ box_types s' = box_types s
  /\ box_type_mappings s' = box_type_mappings s
  /\ warnings s' = warnings s
  /\ (forall k f, is_notrace k f s' <-> is_notrace k f s)
  /\ nodes_built s `prefix_of` nodes_built s'
  /\ log s `prefix_of` log s'.

(** Every layer of [x] that is a box carries a trace id issued by the trace
    stack (non-negative). *)
Fixpoint layers_valid (types : gset string) (x : value) : Prop :=
  match x with
  | VBox cls v t n =>
      if bool_decide (cls ∈ types) then 0 <= t /\ layers_valid types v else True
  | _ => True
  end.

(** ** Concrete inputs for the examples *)

(** A root node of the reverse-mode variant, as [VJPNode.new_root()]. *)
Definition vjp_root : node := new_root "VJPNode" [].

(** The state after [IntBox.register(int)] at import time. *)
Definition int_state : tracer_state := register "IntBox" TInt initial_state.

(** A box of the outer trace (id 0) and one of the inner trace (id 1). *)
Definition outer_box : value := VBox "IntBox" (VInt 3) 0 vjp_root.
Definition inner_box : value := VBox "IntBox" (VInt 4) 1 vjp_root.

(** A raw operation that returns its second positional argument. *)
Definition second_raw : list value -> kwargs_t -> M value :=
  fun args _ =>
    match args with
    | _ :: b :: _ => ret b
    | _ => raise IndexError
    end.

Definition second_prim : primitive_fn := mk_primitive 1%nat second_raw.

(** Integer addition as a raw operation. *)
Definition add_raw : list value -> kwargs_t -> M value :=
  fun args _ =>
    match args with
    | [VInt a; VInt b] => ret (VInt (a + b))
    | _ => raise (UserError 1)
    end.

Definition add_prim : primitive_fn := mk_primitive 2%nat add_raw.

(** A unary operator that evaluates its point function at [x]. *)
Definition eval_at_point : (value -> M value) -> value -> list value -> kwargs_t -> M value :=
  fun f x _ _ => f x.

(** * Properties *)

(** ** Enumeration and the scan of the resolver *)

Section Resolver.
Variable types : gset string.

Lemma enumerate_from_app {A} (l1 l2 : list A) (k : nat) :
  enumerate_from k (l1 ++ l2)
  = enumerate_from k l1 ++ enumerate_from (k + length l1) l2.
Proof.
  revert k; induction l1 as [|a l1 IH]; intros k; simpl.
  - now rewrite Nat.add_0_r.
  - rewrite IH. now replace (S k + length l1)%nat with (k + S (length l1))%nat by lia.
Qed.

Lemma enumerate_from_snd {A} (l : list A) (k : nat) :
  map snd (enumerate_from k l) = l.
Proof. revert k; induction l as [|a l IH]; intros k; simpl; [|rewrite IH]; reflexivity. Qed.

Lemma enumerate_from_lookup {A} (l : list A) (k : nat) (i : Z) (a : A) :
  In (i, a) (enumerate_from k l) ->
  (Z.of_nat k <= i) /\ l !! (Z.to_nat i - k)%nat = Some a.
Proof.
  revert k; induction l as [|b l IH]; intros k; simpl; [tauto|].
  intros [Heq | Hin].
  - inversion Heq; subst. split; [lia|].
    now replace (Z.to_nat (Z.of_nat k) - k)%nat with 0%nat by lia.
  - destruct (IH _ Hin) as [Hle Hl]. split; [lia|].
    replace (Z.to_nat i - k)%nat with (S (Z.to_nat i - S k)) by lia. exact Hl.
Qed.

Lemma boxed_traces_app (l1 l2 : list value) :
  boxed_traces types (l1 ++ l2) = boxed_traces types l1 ++ boxed_traces types l2.
Proof. unfold boxed_traces. now rewrite List.filter_app, map_app. Qed.

Lemma fold_max_snoc (ts : list Z) (t z : Z) :
  fold_right Z.max z (ts ++ [t]) = Z.max (fold_right Z.max z ts) t.
Proof. induction ts as [|u ts IH]; simpl; [lia|]. rewrite IH. lia. Qed.

Lemma top_trace_of_snoc (l : list value) (a : value) :
  top_trace_of types (l ++ [a])
  = if isbox types a then Z.max (top_trace_of types l) (_trace a)
    else top_trace_of types l.
Proof.
  unfold top_trace_of. rewrite boxed_traces_app.
  unfold boxed_traces at 2. simpl. destruct (isbox types a); simpl.
  - apply fold_max_snoc.
  - now rewrite app_nil_r.
Qed.

Lemma top_trace_of_sentinel (l : list value) : -1 <= top_trace_of types l.
Proof.
  unfold top_trace_of. induction (boxed_traces types l); simpl; lia.
Qed.

Lemma top_trace_of_bound (l : list value) (a : value) :
  In a l -> isbox types a = true -> _trace a <= top_trace_of types l.
Proof.
  unfold top_trace_of, boxed_traces.
  induction l as [|b l IH]; simpl; [tauto|].
  intros [-> | Hin] Hbox.
  - rewrite Hbox. simpl. lia.
  - specialize (IH Hin Hbox). destruct (isbox types b); simpl; lia.
Qed.

Lemma top_trace_of_attained (l : list value) :
  -1 < top_trace_of types l ->
  exists a, In a l /\ isbox types a = true /\ _trace a = top_trace_of types l.
Proof.
  unfold top_trace_of, boxed_traces.
  induction l as [|b l IH]; simpl; [lia|].
  destruct (isbox types b) eqn:Hb; simpl.
  - intros H.
    destruct (Z.max_spec (_trace b) (fold_right Z.max (-1) (map _trace (List.filter (isbox types) l))))
      as [[Hlt Hmax] | [Hle Hmax]]; rewrite Hmax in *.
    + destruct IH as (a & Hin & Ha & Ht); [lia|]. exists a; auto.
    + exists b; auto.
  - intros H. destruct (IH H) as (a & Hin & Ha & Ht). exists a; auto.
Qed.

Lemma tracked_above_nil (l : list value) (k : nat) (m : Z) :
  top_trace_of types l < m ->
  List.filter (is_tracked types m) (enumerate_from k l) = [].
Proof.
  intros Hlt.
  destruct (List.filter (is_tracked types m) (enumerate_from k l)) as [|[i a] r] eqn:E;
    [reflexivity|exfalso].
  assert (Hin : In (i, a) (List.filter (is_tracked types m) (enumerate_from k l)))
    by (rewrite E; now left).
  apply List.filter_In in Hin as [Hin Htr].
  unfold is_tracked in Htr; simpl in Htr.
  apply andb_true_iff in Htr as [Hbox Heq]. apply Z.eqb_eq in Heq.
  assert (In a l).
  { rewrite <- (enumerate_from_snd l k). apply (in_map snd _ _ Hin). }
  pose proof (top_trace_of_bound l a H Hbox). lia.
Qed.

Lemma tracked_nonempty (l : list value) :
  -1 < top_trace_of types l ->
  tracked_pairs types (top_trace_of types l) l <> [].
Proof.
  intros H. destruct (top_trace_of_attained l H) as (a & Hin & Hbox & Ht).
  rewrite <- (enumerate_from_snd l 0) in Hin.
  apply in_map_iff in Hin as ([i a'] & Ha' & Hin); simpl in Ha'; subst a'.
  assert (Hf : In (i, a) (tracked_pairs types (top_trace_of types l) l)).
  { apply List.filter_In. split; [exact Hin|].
    unfold is_tracked; simpl. rewrite Hbox, Ht. now rewrite Z.eqb_refl. }
  intros E. rewrite E in Hf. exact Hf.
Qed.

(** What the scan of [find_top_boxed_args] computes, for every argument
    list: the pairs tracked at the best-seen trace id, that id, and the
    node variant of the first of them once the id is above the sentinel. *)
Lemma find_top_boxed_args_scan (args : list value) :
  let m := top_trace_of types args in
  find_top_boxed_args types args
  = (tracked_pairs types m args, m,
     if -1 <? m then head_node_type (tracked_pairs types m args) else None).
Proof.
  unfold find_top_boxed_args, tracked_pairs, enumerate.
  induction args as [|a l IH] using rev_ind; [reflexivity|].
  cbv zeta in *.
  rewrite enumerate_from_app, fold_left_app, IH. simpl.
  rewrite List.filter_app, top_trace_of_snoc. simpl.
  pose proof (top_trace_of_sentinel l) as Hs.
  set (m := top_trace_of types l) in *.
  destruct a as [| | | |cls v t n]; simpl; try now rewrite app_nil_r.
  unfold is_tracked; simpl.
  destruct (bool_decide (cls ∈ types)) eqn:Hc; simpl; [|now rewrite app_nil_r].
  destruct (Z.gtb_spec t m) as [Hgt | Hle].
  - rewrite Z.max_r by lia. rewrite Z.eqb_refl.
    fold (is_tracked types t). rewrite (tracked_above_nil l 0 t) by (fold m; lia).
    simpl. destruct (Z.ltb_spec (-1) t); [reflexivity|lia].
  - rewrite Z.max_l by lia.
    destruct (Z.eqb_spec t m) as [-> | Hne].
    + f_equal. destruct (Z.ltb_spec (-1) m) as [Hm|]; [|reflexivity].
      pose proof (tracked_nonempty l Hm) as Hne. unfold tracked_pairs, enumerate in Hne.
      fold m in Hne. unfold is_tracked in Hne.
      destruct (List.filter _ (enumerate_from 0 l)); [contradiction|reflexivity].
    + now rewrite app_nil_r.
Qed.

End Resolver.

Lemma fold_max_from (ts : list Z) (t : Z) :
  -1 <= t -> fold_right Z.max t ts = Z.max t (fold_right Z.max (-1) ts).
Proof. intros Ht. induction ts as [|u ts IH]; simpl; [lia|]. rewrite IH. lia. Qed.

Lemma max_trace_id_top_trace_of (types : gset string) (args : list value) :
  Forall (fun a => isbox types a = true -> 0 <= _trace a) args ->
  max_trace_id types args = top_trace_of types args.
Proof.
  intros Hall. unfold max_trace_id, top_trace_of.
  destruct (boxed_traces types args) as [|t ts] eqn:E; [reflexivity|].
  simpl. apply fold_max_from.
  assert (Hin : In t (boxed_traces types args)) by (rewrite E; now left).
  unfold boxed_traces in Hin. apply in_map_iff in Hin as (a & <- & Ha).
  apply List.filter_In in Ha as [Ha Hbox].
  rewrite Forall_forall in Hall.
  assert (0 <= _trace a); [|lia].
  apply Hall; [|exact Hbox]. now apply list_elem_of_In.
Qed.

Lemma tracked_pairs_In (types : gset string) (m : Z) (args : list value) i a :
  In (i, a) (tracked_pairs types m args)
  <-> In (i, a) (enumerate args) /\ isbox types a = true /\ _trace a = m.
Proof.
  unfold tracked_pairs. rewrite List.filter_In. unfold is_tracked; simpl.
  rewrite andb_true_iff, Z.eqb_eq. tauto.
Qed.

(** C4: for an argument list whose boxes carry trace ids issued by the
    trace stack (non-negative: the sentinel [-1] is below every id), the
    resolver returns exactly the [(position, box)] pairs whose trace id is
    the maximum among the boxed arguments, in the left-to-right order of
    [enumerate], with that maximum ([-1] when no argument is boxed) and the
    node variant of those boxes (that of the first one, hence the common
    one when they agree; [None] when there is none); a boxed argument with
    a strictly smaller trace id is not in the list. *)
Theorem find_top_boxed_args_resolves (types : gset string) (args : list value) :
  Forall (fun a => isbox types a = true -> 0 <= _trace a) args ->
  let m := max_trace_id types args in
  let tracked := tracked_pairs types m args in
  find_top_boxed_args types args = (tracked, m, head_node_type tracked)
  /\ (forall a, In a args -> isbox types a = true -> _trace a <= m)
  /\ (forall i a, In (i, a) tracked
        <-> In (i, a) (enumerate args) /\ isbox types a = true /\ _trace a = m)
  /\ (forall i a, In (i, a) (enumerate args) -> isbox types a = true ->
        _trace a < m -> ~ In (i, a) tracked)
  /\ (forall variant, tracked <> [] ->
        (forall i b, In (i, b) tracked -> node_type <$> _node b = Some variant) ->
        head_node_type tracked = Some variant).
Proof.
  intros Hall m tracked. subst tracked m.
  rewrite (max_trace_id_top_trace_of types args Hall).
  set (m := top_trace_of types args).
  split; [|split; [|split; [|split]]].
  - rewrite find_top_boxed_args_scan. fold m. f_equal.
    destruct (Z.ltb_spec (-1) m) as [|Hm]; [reflexivity|].
    destruct (tracked_pairs types m args) as [|[i b] r] eqn:E; [reflexivity|exfalso].
    assert (Hin : In (i, b) (tracked_pairs types m args)) by (rewrite E; now left).
    apply tracked_pairs_In in Hin as (Hin & Hbox & Ht).
    rewrite Forall_forall in Hall.
    assert (0 <= _trace b); [|lia].
    apply Hall; [|exact Hbox]. apply list_elem_of_In.
    rewrite <- (enumerate_from_snd args 0). apply (in_map snd _ _ Hin).
  - intros a Hin Hbox. now apply top_trace_of_bound.
  - intros i a. apply tracked_pairs_In.
  - intros i a _ _ Hlt Hin. apply tracked_pairs_In in Hin as (_ & _ & Heq). lia.
  - intros variant Hne Hvar.
    destruct (tracked_pairs types m args) as [|[i b] r]; [contradiction|].
    simpl. apply (Hvar i b). now left.
Qed.

(** The resolver on an outer box, a plain value and two inner boxes. *)
Lemma find_top_boxed_args_resolves_example :
  find_top_boxed_args (box_types int_state) [outer_box; VInt 1; inner_box; inner_box]
  = ([(2, inner_box); (3, inner_box)], 1, Some "VJPNode").
Proof.
  refine (proj1 (find_top_boxed_args_resolves (box_types int_state)
                   [outer_box; VInt 1; inner_box; inner_box] _)).
  repeat (constructor; [simpl; intros H; first [lia | discriminate H]|]).
  constructor.
Defined.

(** ** Substitution of the tracked positions *)

Lemma py_index_nonneg (n k : nat) :
  (k < n)%nat -> py_index n (Z.of_nat k) = Some k.
Proof.
  intros H. unfold py_index.
  destruct (Z.leb_spec 0 (Z.of_nat k)); [|lia].
  destruct (Z.ltb_spec (Z.of_nat k) (Z.of_nat n)); [|lia].
  simpl. now rewrite Nat2Z.id.
Qed.

Lemma py_index_lt (n : nat) (i : Z) (k : nat) :
  py_index n i = Some k -> (k < n)%nat.
Proof.
  unfold py_index.
  destruct (Z.leb_spec 0 i), (Z.ltb_spec i (Z.of_nat n)); simpl;
    try (intros [= <-]; lia);
    destruct (Z.leb_spec (- Z.of_nat n) i), (Z.ltb_spec i 0); simpl;
    try discriminate; intros [= <-]; lia.
Qed.

Lemma py_setitem_middle {A} (pre post : list A) (a v : A) :
  py_setitem (pre ++ a :: post) (Z.of_nat (length pre)) v = Some (pre ++ v :: post).
Proof.
  unfold py_setitem. rewrite py_index_nonneg.
  - f_equal. rewrite insert_app_r_alt by lia.
    now replace (length pre - length pre)%nat with 0%nat by lia.
  - rewrite length_app. simpl. lia.
Qed.

Lemma subvals_tracked_from (types : gset string) (m : Z) (post pre : list value) :
  subvals (pre ++ post)
          (map (fun ib => (fst ib, _value (snd ib)))
               (List.filter (is_tracked types m) (enumerate_from (length pre) post)))
  = Some (pre ++ map (unwrap_top types m) post).
Proof.
  revert pre; induction post as [|a post IH]; intros pre; [reflexivity|].
  simpl. unfold is_tracked at 1, unwrap_top at 1. simpl.
  destruct (isbox types a && (_trace a =? m)).
  - simpl. rewrite py_setitem_middle.
    specialize (IH (pre ++ [_value a])).
    rewrite length_app, Nat.add_1_r in IH. rewrite <- !app_assoc in IH. exact IH.
  - specialize (IH (pre ++ [a])).
    rewrite length_app, Nat.add_1_r in IH. rewrite <- !app_assoc in IH. exact IH.
Qed.

(** [argvals]: every argument tracked at [m] is replaced by its [_value],
    every other argument (a box of another trace included) stays. *)
Lemma subvals_tracked (types : gset string) (m : Z) (args : list value) :
  subvals args (map (fun ib => (fst ib, _value (snd ib))) (tracked_pairs types m args))
  = Some (map (unwrap_top types m) args).
Proof. exact (subvals_tracked_from types m args []). Qed.

Lemma unwrap_top_depth (types : gset string) (m : Z) (a : value) :
  (box_depth (unwrap_top types m a) <= box_depth a)%nat
  /\ (isbox types a && (_trace a =? m) = true ->
      (box_depth (unwrap_top types m a) < box_depth a)%nat).
Proof.
  unfold unwrap_top. destruct (isbox types a && (_trace a =? m)) eqn:E.
  - destruct a; simpl in *; try discriminate. lia.
  - split; [lia|discriminate].
Qed.

Lemma args_depth_unwrap_le (types : gset string) (m : Z) (args : list value) :
  (args_depth (map (unwrap_top types m) args) <= args_depth args)%nat.
Proof.
  induction args as [|a l IH]; simpl; [lia|].
  pose proof (proj1 (unwrap_top_depth types m a)). lia.
Qed.

Lemma args_depth_unwrap_lt (types : gset string) (m : Z) (args : list value) :
  tracked_pairs types m args <> [] ->
  (args_depth (map (unwrap_top types m) args) < args_depth args)%nat.
Proof.
  intros Hne.
  assert (Hex : exists a, In a args /\ isbox types a && (_trace a =? m) = true).
  { destruct (tracked_pairs types m args) as [|[i a] r] eqn:E; [contradiction|].
    assert (Hin : In (i, a) (tracked_pairs types m args)) by (rewrite E; now left).
    apply List.filter_In in Hin as [Hin Htr]. exists a. split; [|exact Htr].
    rewrite <- (enumerate_from_snd args 0). apply (in_map snd _ _ Hin). }
  destruct Hex as (a & Hin & Ha). clear Hne.
  induction args as [|b l IH]; simpl in *; [contradiction|].
  pose proof (args_depth_unwrap_le types m l).
  destruct Hin as [-> | Hin].
  - pose proof (proj2 (unwrap_top_depth types m a) Ha). lia.
  - specialize (IH Hin). pose proof (proj1 (unwrap_top_depth types m b)). lia.
Qed.

(** ** The primitive wrapper *)

Section Primitive.
Variable p : primitive_fn.

Lemma f_wrapped_body_resolved self args kwargs s :
  let types := box_types s in
  let m := top_trace_of types args in
  let tracked := tracked_pairs types m args in
  f_wrapped_body self p args kwargs s
  = match tracked with
    | [] => f_raw p args kwargs s
    | _ :: _ =>
        tracked_branch p self tracked m (resolved_constructor types args)
                       (map (unwrap_top types m) args) kwargs s
    end.
Proof.
  cbv zeta. unfold f_wrapped_body, bind at 1, gets.
  rewrite find_top_boxed_args_scan. cbv zeta.
  pose proof (subvals_tracked (box_types s) (top_trace_of (box_types s) args) args) as Hsub.
  unfold resolved_constructor.
  destruct (tracked_pairs (box_types s) (top_trace_of (box_types s) args) args)
    as [|ib r] eqn:E; [reflexivity|].
  unfold bind at 1. rewrite Hsub. reflexivity.
Qed.

Lemma tracked_branch_ext self1 self2 tracked m nc argvals kwargs s :
  (forall s', self1 argvals kwargs s' = self2 argvals kwargs s') ->
  tracked_branch p self1 tracked m nc argvals kwargs s
  = tracked_branch p self2 tracked m nc argvals kwargs s.
Proof.
  intros H. unfold tracked_branch, bind.
  destruct (notrace_lookup nc s) as [[ops|e] s1]; [|reflexivity].
  destruct (bool_decide (f_id p ∈ ops)); rewrite H; reflexivity.
Qed.

Lemma f_wrapped_body_ext self1 self2 args kwargs s :
  (let types := box_types s in
   let m := top_trace_of types args in
   tracked_pairs types m args <> [] ->
   forall s', self1 (map (unwrap_top types m) args) kwargs s'
              = self2 (map (unwrap_top types m) args) kwargs s') ->
  f_wrapped_body self1 p args kwargs s = f_wrapped_body self2 p args kwargs s.
Proof.
  cbv zeta. intros H. rewrite !f_wrapped_body_resolved. cbv zeta.
  destruct (tracked_pairs (box_types s) (top_trace_of (box_types s) args) args)
    as [|ib r] eqn:E; [reflexivity|].
  apply tracked_branch_ext. apply H. discriminate.
Qed.

Lemma f_wrapped_fuel_eq fuel args kwargs :
  f_wrapped_fuel fuel p args kwargs
  = f_wrapped_body
      (match fuel with
       | O => fun _ _ => raise RecursionError
       | S fuel' => f_wrapped_fuel fuel' p
       end) p args kwargs.
Proof. destruct fuel; reflexivity. Qed.

(** Fuel beyond the number of box layers changes nothing. *)
Lemma f_wrapped_fuel_enough fuel1 :
  forall fuel2 args kwargs s,
    (args_depth args <= fuel1)%nat -> (args_depth args <= fuel2)%nat ->
    f_wrapped_fuel fuel1 p args kwargs s = f_wrapped_fuel fuel2 p args kwargs s.
Proof.
  induction fuel1 as [|f1 IH]; intros fuel2 args kwargs s H1 H2;
    rewrite (f_wrapped_fuel_eq _ args), (f_wrapped_fuel_eq fuel2 args);
    apply f_wrapped_body_ext; cbv zeta; intros Hne s';
    pose proof (args_depth_unwrap_lt _ _ _ Hne) as Hlt.
  - lia.
  - destruct fuel2 as [|f2]; [lia|]. apply IH; lia.
Qed.

(** The equation of [f_wrapped]: the source's body, with the function
    itself at the two recursive calls.  In particular the recursion
    always ends: [RecursionError] never comes from the fuel. *)
Lemma f_wrapped_unfold args kwargs s :
  f_wrapped p args kwargs s = f_wrapped_body (f_wrapped p) p args kwargs s.
Proof.
  unfold f_wrapped at 1. rewrite f_wrapped_fuel_eq.
  apply f_wrapped_body_ext. cbv zeta. intros Hne s'.
  pose proof (args_depth_unwrap_lt _ _ _ Hne) as Hlt.
  unfold f_wrapped.
  destruct (args_depth args) as [|f'] eqn:E; [lia|].
  apply f_wrapped_fuel_enough; lia.
Qed.

Lemma no_box_not_tracked (types : gset string) (m : Z) (args : list value) :
  Forall (fun a => isbox types a = false) args ->
  tracked_pairs types m args = [].
Proof.
  intros Hall.
  destruct (tracked_pairs types m args) as [|[i a] r] eqn:E; [reflexivity|exfalso].
  assert (Hin : In (i, a) (tracked_pairs types m args)) by (rewrite E; now left).
  apply tracked_pairs_In in Hin as (Hin & Hbox & _).
  rewrite Forall_forall in Hall.
  rewrite Hall in Hbox; [discriminate|].
  apply list_elem_of_In. rewrite <- (enumerate_from_snd args 0).
  apply (in_map snd _ _ Hin).
Qed.

End Primitive.

Section PrimitivePaths.
Variable p : primitive_fn.

Lemma f_wrapped_untracked args kwargs s :
  tracked_pairs (box_types s) (top_trace_of (box_types s) args) args = [] ->
  f_wrapped p args kwargs s = f_raw p args kwargs s.
Proof.
  intros H. rewrite f_wrapped_unfold, f_wrapped_body_resolved. cbv zeta.
  now rewrite H.
Qed.

Lemma f_wrapped_no_box args kwargs s :
  Forall (fun a => isbox (box_types s) a = false) args ->
  f_wrapped p args kwargs s = f_raw p args kwargs s.
Proof. intros Hall. apply f_wrapped_untracked. now apply no_box_not_tracked. Qed.

Lemma f_wrapped_tracked args kwargs s :
  let types := box_types s in
  let m := top_trace_of types args in
  tracked_pairs types m args <> [] ->
  f_wrapped p args kwargs s
  = tracked_branch p (f_wrapped p) (tracked_pairs types m args) m
                   (resolved_constructor types args)
                   (map (unwrap_top types m) args) kwargs s.
Proof.
  cbv zeta. intros H. rewrite f_wrapped_unfold, f_wrapped_body_resolved. cbv zeta.
  destruct (tracked_pairs (box_types s) (top_trace_of (box_types s) args) args);
    [contradiction|reflexivity].
Qed.

Lemma notrace_lookup_frame nc s :
  let s1 := snd (notrace_lookup nc s) in
  top s1 = top s /\ box_types s1 = box_types s
  /\ box_type_mappings s1 = box_type_mappings s
  /\ nodes_built s1 = nodes_built s /\ log s1 = log s /\ warnings s1 = warnings s.
Proof. unfold notrace_lookup. destruct (notrace_primitives s !! nc); simpl; tauto. Qed.

Lemma notrace_lookup_present nc f s :
  is_notrace nc f s ->
  exists ops, notrace_lookup nc s = (Return ops, s) /\ f ∈ ops.
Proof.
  unfold is_notrace, notrace_lookup.
  destruct (notrace_primitives s !! nc) as [ops|]; simpl; intros H.
  - exists ops. split; [reflexivity|exact H].
  - now apply not_elem_of_empty in H.
Qed.

Lemma notrace_lookup_eta nc s :
  notrace_lookup nc s
  = (Return (default ∅ (notrace_primitives s !! nc)), snd (notrace_lookup nc s)).
Proof. unfold notrace_lookup. destruct (notrace_primitives s !! nc); reflexivity. Qed.

End PrimitivePaths.

(** C7: when no positional argument is a box, the wrapped function is the
    raw function on the same arguments and keyword arguments: same
    outcome and same final state, so the wrapper itself builds no node
    and creates no box on this path. *)
Theorem zero_overhead_path (p : primitive_fn) (args : list value)
        (kwargs : kwargs_t) (s : tracer_state) :
  Forall (fun a => isbox (box_types s) a = false) args ->
  f_wrapped p args kwargs s = f_raw p args kwargs s
  /\ nodes_built (snd (f_wrapped p args kwargs s))
     = nodes_built (snd (f_raw p args kwargs s))
  /\ log (snd (f_wrapped p args kwargs s)) = log (snd (f_raw p args kwargs s)).
Proof.
  intros Hall.
  assert (E : f_wrapped p args kwargs s = f_raw p args kwargs s)
    by now apply f_wrapped_no_box.
  rewrite E. auto.
Qed.

(** Addition on two plain integers is the raw addition. *)
Lemma zero_overhead_path_example :
  f_wrapped add_prim [VInt 1; VInt 2] [] int_state = (Return (VInt 3), int_state).
Proof.
  rewrite (proj1 (zero_overhead_path add_prim [VInt 1; VInt 2] [] int_state
                    ltac:(repeat constructor))).
  reflexivity.
Defined.

Section TrackedPath.
Variable p : primitive_fn.
Variables (args : list value) (kwargs : kwargs_t) (s : tracer_state).

Let types := box_types s.
Let m := top_trace_of types args.
Let tracked := tracked_pairs types m args.
Let nc := resolved_constructor types args.
Let argvals := map (unwrap_top types m) args.

Lemma f_wrapped_tracked_notrace :
  tracked <> [] -> is_notrace nc (f_id p) s ->
  f_wrapped p args kwargs s = f_wrapped p argvals kwargs s.
Proof.
  unfold argvals, nc, tracked, m, types. intros Hne Hin.
  rewrite f_wrapped_tracked by exact Hne.
  unfold tracked_branch, bind.
  destruct (notrace_lookup_present _ _ _ Hin) as (ops & -> & Hops).
  now rewrite bool_decide_eq_true_2.
Qed.

Lemma f_wrapped_tracked_traced :
  tracked <> [] -> ~ is_notrace nc (f_id p) s ->
  f_wrapped p args kwargs s
  = (ans <- f_wrapped p argvals kwargs ;;
     n <- call_node_constructor nc ans (f_id p) argvals kwargs
                                (map fst tracked) (parents_of tracked) ;;
     new_box ans m n) (snd (notrace_lookup nc s)).
Proof.
  unfold argvals, nc, tracked, m, types. intros Hne Hnot.
  rewrite f_wrapped_tracked by exact Hne.
  unfold tracked_branch. unfold bind at 1.
  rewrite notrace_lookup_eta.
  now rewrite bool_decide_eq_false_2.
Qed.

(** What a returning call on the traced path has done. *)
Lemma f_wrapped_traced_inv r s' :
  tracked <> [] -> ~ is_notrace nc (f_id p) s ->
  f_wrapped p args kwargs s = (Return r, s') ->
  exists ans s2 cls variant,
    f_wrapped p argvals kwargs (snd (notrace_lookup nc s)) = (Return ans, s2)
    /\ nc = Some variant
    /\ box_type_mappings s2 !! py_type ans = Some cls
    /\ r = VBox cls ans m
              (NCall variant ans (f_id p) argvals kwargs
                     (map fst tracked) (parents_of tracked))
    /\ nodes_built s' = nodes_built s2
         ++ [NCall variant ans (f_id p) argvals kwargs
                   (map fst tracked) (parents_of tracked)]
    /\ log s' = log s2 ++ [LogCreatedBox r].
Proof.
  intros Hne Hnot. rewrite f_wrapped_tracked_traced by assumption.
  unfold bind.
  destruct (f_wrapped p argvals kwargs (snd (notrace_lookup nc s)))
    as [[ans|e] s2]; [|discriminate].
  clear Hnot. generalize nc. intros [variant|]; simpl; [|discriminate].
  unfold new_box. simpl.
  destruct (box_type_mappings s2 !! py_type ans) as [cls|] eqn:E; [|discriminate].
  intros [= <- <-]. exists ans, s2, cls, variant. simpl. auto 10.
Qed.

End TrackedPath.

(** C2 (as stated): with a box of the outer trace at position 0 and a box
    of the inner trace at position 1, the code does not apply the raw
    operation to [argvals]: it calls itself, which unwraps the outer box,
    builds the outer trace's node and boxes the answer there, so two nodes
    are built and the result differs from the one the claim describes. *)
Lemma raw_answer_counterexample :
  f_wrapped second_prim [outer_box; inner_box] [] (set_top 1 int_state)
  <> f_wrapped_raw_answer second_prim [outer_box; inner_box] [] (set_top 1 int_state)
  /\ length (nodes_built
               (snd (f_wrapped second_prim [outer_box; inner_box] []
                               (set_top 1 int_state)))) = 2%nat
  /\ length (nodes_built
               (snd (f_wrapped_raw_answer second_prim [outer_box; inner_box] []
                                          (set_top 1 int_state)))) = 1%nat.
Proof.
  split; [|split]; [|vm_compute; reflexivity|vm_compute; reflexivity].
  intros H. apply (f_equal fst) in H. vm_compute in H. discriminate H.
Qed.

(** C2 (amended): on the tracked path that is not exempted by the notrace
    registry, [argvals] is [args] with the boxes of the innermost trace
    replaced by their raw values; the answer is computed by calling the
    wrapped operation itself on [argvals] and [kwargs] (which is the raw
    operation on [argvals] when no box is left in [argvals], and otherwise
    resolves the remaining boxes of outer traces the same way); then one
    node is built at this level by the node variant's constructor and the
    answer is boxed at the resolved trace id. *)
Theorem tracked_path_recurses (p : primitive_fn) (args : list value)
        (kwargs : kwargs_t) (s : tracer_state) :
  let types := box_types s in
  let m := top_trace_of types args in
  let tracked := tracked_pairs types m args in
  let nc := resolved_constructor types args in
  let argvals := map (unwrap_top types m) args in
  tracked <> [] -> ~ is_notrace nc (f_id p) s ->
  find_top_boxed_args types args = (tracked, m, nc)
  /\ subvals args (map (fun ib => (fst ib, _value (snd ib))) tracked) = Some argvals
  /\ f_wrapped p args kwargs s
     = (ans <- f_wrapped p argvals kwargs ;;
        n <- call_node_constructor nc ans (f_id p) argvals kwargs
                                   (map fst tracked) (parents_of tracked) ;;
        new_box ans m n) (snd (notrace_lookup nc s))
  /\ (Forall (fun a => isbox types a = false) argvals ->
      f_wrapped p argvals kwargs (snd (notrace_lookup nc s))
      = f_raw p argvals kwargs (snd (notrace_lookup nc s)))
  /\ (forall r s', f_wrapped p args kwargs s = (Return r, s') ->
      exists ans s2 cls variant,
        f_wrapped p argvals kwargs (snd (notrace_lookup nc s)) = (Return ans, s2)
        /\ nc = Some variant
        /\ box_type_mappings s2 !! py_type ans = Some cls
        /\ r = VBox cls ans m
                  (NCall variant ans (f_id p) argvals kwargs
                         (map fst tracked) (parents_of tracked))
        /\ nodes_built s' = nodes_built s2
             ++ [NCall variant ans (f_id p) argvals kwargs
                       (map fst tracked) (parents_of tracked)]
        /\ log s' = log s2 ++ [LogCreatedBox r]).
Proof.
  intros types m tracked nc argvals Hne Hnot.
  split; [|split; [|split; [|split]]].
  - apply find_top_boxed_args_scan.
  - apply subvals_tracked.
  - apply f_wrapped_tracked_traced; assumption.
  - intros Hall. apply f_wrapped_no_box.
    destruct (notrace_lookup_frame nc s) as (_ & -> & _). exact Hall.
  - intros r s' H. apply (f_wrapped_traced_inv p args kwargs s r s'); assumption.
Qed.

(** Addition on an inner box and a plain integer: one level of recursion. *)
Lemma tracked_path_recurses_example :
  f_wrapped add_prim [inner_box; VInt 2] [] (set_top 1 int_state)
  = (ans <- f_wrapped add_prim [VInt 4; VInt 2] [] ;;
     n <- call_node_constructor (Some "VJPNode") ans 2%nat [VInt 4; VInt 2] []
                                [0] [vjp_root] ;;
     new_box ans 1 n)
      (snd (notrace_lookup (Some "VJPNode") (set_top 1 int_state))).
Proof.
  refine (proj1 (proj2 (proj2
    (tracked_path_recurses add_prim [inner_box; VInt 2] [] (set_top 1 int_state) _ _)))).
  - vm_compute. discriminate.
  - unfold is_notrace. vm_compute. intros H. discriminate H.
Defined.

(** ** Alignment of [tracked_argnums] and [parents] *)

Lemma enumerate_from_sorted {A} (P : Z * A -> bool) (l : list A) (k : nat) :
  StronglySorted Z.lt (map fst (List.filter P (enumerate_from k l))).
Proof.
  revert k; induction l as [|a l IH]; intros k; simpl; [constructor|].
  destruct (P (Z.of_nat k, a)); [|apply IH].
  simpl. constructor; [apply IH|].
  apply Forall_forall. intros i Hi. apply list_elem_of_In in Hi.
  apply in_map_iff in Hi as ([j b] & <- & Hin). simpl.
  apply List.filter_In in Hin as [Hin _].
  apply enumerate_from_lookup in Hin as [Hle _]. lia.
Qed.

Lemma tracked_pairs_boxes (types : gset string) (m : Z) (args : list value) :
  Forall (fun ib => isbox types (snd ib) = true /\ _trace (snd ib) = m
                    /\ 0 <= fst ib
                    /\ args !! Z.to_nat (fst ib) = Some (snd ib))
         (tracked_pairs types m args).
Proof.
  apply Forall_forall. intros [i a] Hin. apply list_elem_of_In in Hin.
  apply tracked_pairs_In in Hin as (Hin & Hbox & Ht). simpl.
  apply enumerate_from_lookup in Hin as [Hle Hl].
  rewrite Nat.sub_0_r in Hl. repeat split; auto; lia.
Qed.

Lemma parents_of_nodes (types : gset string) (boxed : list (Z * value)) :
  Forall (fun ib => isbox types (snd ib) = true) boxed ->
  map Some (parents_of boxed) = map (fun ib => _node (snd ib)) boxed.
Proof.
  induction 1 as [|[i b] l Hb _ IH]; [reflexivity|].
  destruct b; try discriminate Hb.
  change (parents_of ((i, VBox cls b t n) :: l)) with (n :: parents_of l).
  simpl. now rewrite IH.
Qed.

(** C8: the node built by the primitive wrapper receives [tracked_argnums]
    and [parents] of the same length, both read off the resolver's tracked
    list in its order: [tracked_argnums] are the positions (strictly
    increasing, so left to right), and [parents[i]] is the node of the box
    that stands at position [tracked_argnums[i]] of the arguments. *)
Theorem node_parents_aligned (p : primitive_fn) (args : list value)
        (kwargs : kwargs_t) (s s' : tracer_state)
        (boxed : list (Z * value)) (t : Z) (nc : option string) (r : value) :
  find_top_boxed_args (box_types s) args = (boxed, t, nc) ->
  boxed <> [] -> ~ is_notrace nc (f_id p) s ->
  f_wrapped p args kwargs s = (Return r, s') ->
  exists cls variant ans argvals argnums parents,
    r = VBox cls ans t (NCall variant ans (f_id p) argvals kwargs argnums parents)
    /\ last (nodes_built s')
       = Some (NCall variant ans (f_id p) argvals kwargs argnums parents)
    /\ length argnums = length parents
    /\ argnums = map fst boxed
    /\ map Some parents = map (fun ib => _node (snd ib)) boxed
    /\ StronglySorted Z.lt argnums
    /\ (forall (i : nat) (k : Z), argnums !! i = Some k ->
        exists b n, 0 <= k /\ args !! Z.to_nat k = Some b
                    /\ isbox (box_types s) b = true /\ _trace b = t
                    /\ _node b = Some n /\ parents !! i = Some n).
Proof.
  rewrite find_top_boxed_args_scan. cbv zeta. intros [= <- <- <-] Hne Hnot Hrun.
  destruct (f_wrapped_traced_inv p args kwargs s r s' Hne Hnot Hrun)
    as (ans & s2 & cls & variant & _ & _ & _ & -> & Hnodes & _).
  set (m := top_trace_of (box_types s) args) in *.
  set (tracked := tracked_pairs (box_types s) m args) in *.
  pose proof (tracked_pairs_boxes (box_types s) m args) as Hall. fold tracked in Hall.
  assert (Hpar : map Some (parents_of tracked) = map (fun ib => _node (snd ib)) tracked).
  { apply (parents_of_nodes (box_types s)).
    eapply Forall_impl; [exact Hall|]. intros ib H. apply H. }
  eexists cls, variant, ans, _, (map fst tracked), (parents_of tracked).
  split; [reflexivity|]. split; [rewrite Hnodes; apply last_snoc|].
  split.
  { rewrite <- (length_map Some (parents_of tracked)), Hpar. now rewrite !length_map. }
  split; [reflexivity|]. split; [exact Hpar|].
  split; [apply enumerate_from_sorted|].
  intros i k Hk. rewrite list_lookup_fmap in Hk.
  destruct (tracked !! i) as [[k' b]|] eqn:Ei; [|discriminate].
  simpl in Hk. injection Hk as ->.
  rewrite Forall_forall in Hall.
  destruct (Hall (k, b)) as (Hbox & Ht & Hk0 & Hl);
    [eapply list_elem_of_lookup_2; exact Ei|]. simpl in *.
  assert (Hn : map Some (parents_of tracked) !! i = Some (_node b)).
  { rewrite Hpar, list_lookup_fmap, Ei. reflexivity. }
  rewrite list_lookup_fmap in Hn.
  destruct (parents_of tracked !! i) as [n|]; [|discriminate].
  simpl in Hn. injection Hn as Hn.
  exists b, n. auto 10.
Qed.

(** The node built for addition on an inner box and a plain integer. *)
Lemma node_parents_aligned_example :
  exists (argnums : list Z) (parents : list node),
    argnums = [0] /\ map Some parents = [Some vjp_root]
    /\ length argnums = length parents.
Proof.
  destruct (node_parents_aligned add_prim [inner_box; VInt 2] []
              (set_top 1 int_state)
              (snd (f_wrapped add_prim [inner_box; VInt 2] [] (set_top 1 int_state)))
              [(0, inner_box)] 1 (Some "VJPNode")
              (VBox "IntBox" (VInt 6) 1
                    (NCall "VJPNode" (VInt 6) 2%nat [VInt 4; VInt 2] [] [0] [vjp_root])))
    as (cls & variant & ans & argvals & argnums & parents
        & _ & _ & Hlen & Ha & Hp & _).
  - vm_compute. reflexivity.
  - discriminate.
  - unfold is_notrace. vm_compute. intros H. discriminate H.
  - vm_compute. reflexivity.
  - exists argnums, parents. auto.
Defined.

(** ** The notrace registry *)

Lemma register_notrace_is_notrace (trace_type : option string) (f : prim_id)
      (s : tracer_state) :
  is_notrace trace_type f (register_notrace trace_type f s).
Proof.
  unfold is_notrace, register_notrace, set_notrace. simpl.
  rewrite lookup_insert_eq. simpl. set_solver.
Qed.

Lemma is_notrace_after_lookup (k nc : option string) (f : prim_id)
      (s : tracer_state) :
  is_notrace k f s -> is_notrace k f (snd (notrace_lookup nc s)).
Proof.
  unfold is_notrace, notrace_lookup.
  destruct (notrace_primitives s !! nc) as [ops|] eqn:E; simpl; [auto|].
  intros H. destruct (decide (nc = k)) as [-> | Hne].
  - rewrite E in H. simpl in H. now apply not_elem_of_empty in H.
  - now rewrite lookup_insert_ne.
Qed.

Section Notrace.
Variable p : primitive_fn.
Variable variant : string.
Variable kwargs : kwargs_t.

(** The raw operation builds no node of the variant. *)
Hypothesis f_raw_no_node :
  forall args kw s,
    nodes_of_variant variant (nodes_built (snd (f_raw p args kw s)))
    = nodes_of_variant variant (nodes_built s).

Lemma notrace_variant_nodes (n : nat) :
  forall args s,
    (args_depth args <= n)%nat ->
    is_notrace (Some variant) (f_id p) s ->
    nodes_of_variant variant (nodes_built (snd (f_wrapped p args kwargs s)))
    = nodes_of_variant variant (nodes_built s).
Proof.
  induction n as [|n IH]; intros args s Hd Hin;
    destruct (tracked_pairs (box_types s) (top_trace_of (box_types s) args) args)
      as [|ib l] eqn:E;
    try (rewrite (f_wrapped_untracked p args kwargs s E); apply f_raw_no_node);
    assert (Hne : tracked_pairs (box_types s) (top_trace_of (box_types s) args) args <> [])
      by (rewrite E; discriminate);
    pose proof (args_depth_unwrap_lt _ _ _ Hne) as Hlt; [lia|].
  rewrite (f_wrapped_tracked p args kwargs s Hne). rewrite E.
  unfold tracked_branch, bind.
  set (nc := resolved_constructor (box_types s) args).
  set (argvals := map (unwrap_top (box_types s) (top_trace_of (box_types s) args)) args) in *.
  rewrite notrace_lookup_eta.
  pose proof (is_notrace_after_lookup (Some variant) nc (f_id p) s Hin) as Hin1.
  destruct (notrace_lookup_frame nc s) as (_ & _ & _ & Hnodes & _).
  set (s1 := snd (notrace_lookup nc s)) in *.
  assert (Hrec : nodes_of_variant variant (nodes_built (snd (f_wrapped p argvals kwargs s1)))
                 = nodes_of_variant variant (nodes_built s)).
  { rewrite <- Hnodes. apply IH; [lia|exact Hin1]. }
  destruct (bool_decide (f_id p ∈ default ∅ (notrace_primitives s !! nc))) eqn:Hops;
    [exact Hrec|].
  destruct (f_wrapped p argvals kwargs s1) as [[ans|e] s2]; simpl in *; [|exact Hrec].
  destruct nc as [w|] eqn:Enc; simpl; [|exact Hrec].
  unfold new_box. simpl.
  assert (Hw : w <> variant).
  { intros ->. apply bool_decide_eq_false_1 in Hops. apply Hops. exact Hin. }
  destruct (box_type_mappings s2 !! py_type ans); simpl;
    unfold nodes_of_variant in *; rewrite List.filter_app; simpl;
    rewrite bool_decide_eq_false_2 by exact Hw; now rewrite app_nil_r.
Qed.

End Notrace.

(** C9: when the operation is registered as notrace for the node variant
    that the innermost-trace boxes resolve to, the call returns what the
    wrapped operation returns on the unwrapped arguments and leaves the
    state as that call leaves it (no node, no box at this level); this is
    the raw operation on [argvals] when no box remains; and as long as the
    raw operation builds no node of that variant itself, the call builds
    none.  [register_notrace] establishes the registration. *)
Theorem notrace_builds_no_node (p : primitive_fn) (variant : string)
        (args : list value) (kwargs : kwargs_t) (s : tracer_state) :
  let types := box_types s in
  let m := top_trace_of types args in
  let argvals := map (unwrap_top types m) args in
  tracked_pairs types m args <> [] ->
  resolved_constructor types args = Some variant ->
  is_notrace (Some variant) (f_id p) s ->
  find_top_boxed_args types args = (tracked_pairs types m args, m, Some variant)
  /\ f_wrapped p args kwargs s = f_wrapped p argvals kwargs s
  /\ (Forall (fun a => isbox types a = false) argvals ->
      f_wrapped p args kwargs s = f_raw p argvals kwargs s)
  /\ ((forall args' kw s0,
         nodes_of_variant variant (nodes_built (snd (f_raw p args' kw s0)))
         = nodes_of_variant variant (nodes_built s0)) ->
      nodes_of_variant variant (nodes_built (snd (f_wrapped p args kwargs s)))
      = nodes_of_variant variant (nodes_built s))
  /\ (forall s0, is_notrace (Some variant) (f_id p)
                            (register_notrace (Some variant) (f_id p) s0)).
Proof.
  intros types m argvals Hne Hnc Hin.
  assert (E : f_wrapped p args kwargs s = f_wrapped p argvals kwargs s).
  { apply f_wrapped_tracked_notrace; [exact Hne|].
    unfold types in Hnc. rewrite Hnc. exact Hin. }
  split; [|split; [|split; [|split]]].
  - rewrite find_top_boxed_args_scan. cbv zeta. fold types m.
    unfold resolved_constructor in Hnc. fold types m in Hnc. now rewrite Hnc.
  - exact E.
  - intros Hall. rewrite E. now apply f_wrapped_no_box.
  - intros Hraw. apply (notrace_variant_nodes p variant kwargs Hraw (args_depth args));
      [lia|exact Hin].
  - intros s0. apply register_notrace_is_notrace.
Qed.

(** Addition registered as notrace for [VJPNode], called on an inner box. *)
Lemma notrace_builds_no_node_example :
  f_wrapped add_prim [inner_box; VInt 2] []
            (register_notrace (Some "VJPNode") 2%nat (set_top 1 int_state))
  = f_wrapped add_prim [VInt 4; VInt 2] []
              (register_notrace (Some "VJPNode") 2%nat (set_top 1 int_state)).
Proof.
  refine (proj1 (proj2 (notrace_builds_no_node add_prim "VJPNode" [inner_box; VInt 2] []
            (register_notrace (Some "VJPNode") 2%nat (set_top 1 int_state)) _ _ _))).
  - vm_compute. discriminate.
  - vm_compute. reflexivity.
  - unfold is_notrace. vm_compute. reflexivity.
Defined.

(** ** Boxes and the registry *)

Lemma registry_ok_initial : registry_ok initial_state.
Proof. intros ty cls H. simpl in H. now rewrite lookup_empty in H. Qed.

Lemma register_registry_ok (cls : string) (value_type : pytype) (s : tracer_state) :
  registry_ok s -> registry_ok (register cls value_type s).
Proof.
  intros Hok ty c. unfold register. simpl.
  rewrite !lookup_insert. repeat case_decide; intros Hty.
  - injection Hty as <-. set_solver.
  - injection Hty as <-. set_solver.
  - apply Hok in Hty. set_solver.
Qed.

Lemma getval_box (types : gset string) (x : value) :
  isbox types x = true -> getval types x = getval types (_value x).
Proof. destruct x; simpl; try discriminate. now intros ->. Qed.

Lemma getval_not_box (types : gset string) (x : value) :
  isbox types x = false -> getval types x = x.
Proof. destruct x; simpl; try reflexivity. now intros ->. Qed.

(** C10: the truth value of a box is the truth value of the value it
    wraps, whatever its class, trace id and node; hence also that of the
    raw value under any number of boxes. *)
Theorem box_bool_delegates :
  (forall cls v t n, py_bool (VBox cls v t n) = py_bool v)
  /\ (forall types x, py_bool x = py_bool (getval types x)).
Proof.
  split; [reflexivity|].
  intros types x. induction x as [| | | |cls v IH t n]; simpl; try reflexivity.
  destruct (bool_decide (cls ∈ types)); [exact IH|reflexivity].
Qed.

(** C5 (as stated): [int] is registered to [IntBox], so [IntBox] itself is
    a registered type; wrapping a value of that type, a box, succeeds, and
    unwrapping the result unwinds both boxes instead of giving the wrapped
    value back. *)
Lemma round_trip_counterexample :
  box_type_mappings int_state !! py_type outer_box = Some "IntBox"
  /\ exists b s', new_box outer_box 1 vjp_root int_state = (Return b, s')
                  /\ getval (box_types s') b = VInt 3
                  /\ getval (box_types s') b <> outer_box.
Proof.
  split; [vm_compute; reflexivity|].
  eexists _, _. split; [vm_compute; reflexivity|].
  split; [vm_compute; reflexivity|].
  vm_compute. discriminate.
Qed.

(** C5 (amended): [new_box] raises the [TypeError] naming [type(v)]
    exactly when [type(v)] has no entry in the registry and changes
    nothing then; for a registered type it returns the box of the
    registered class holding [v], the trace id and the node, and
    unwrapping that box gives what unwrapping [v] gives: [v] itself when
    [v] is not a box, the raw value under all its boxes when [v] is one.
    [getval] descends through the [_value] of a box and returns any other
    value unchanged. *)
Theorem new_box_getval (v : value) (t : Z) (n : node) (s : tracer_state) :
  registry_ok s ->
  (box_type_mappings s !! py_type v = None
   <-> exists e s', new_box v t n s = (Raise e, s'))
  /\ (box_type_mappings s !! py_type v = None ->
      new_box v t n s = (Raise (TypeError_cant_differentiate (py_type v)), s))
  /\ (forall cls, box_type_mappings s !! py_type v = Some cls ->
      new_box v t n s
      = (Return (VBox cls v t n), logger_info (LogCreatedBox (VBox cls v t n)) s)
      /\ isbox (box_types s) (VBox cls v t n) = true
      /\ getval (box_types s) (VBox cls v t n) = getval (box_types s) v
      /\ (isbox (box_types s) v = false ->
          getval (box_types s) (VBox cls v t n) = v))
  /\ (forall x, isbox (box_types s) x = true ->
      getval (box_types s) x = getval (box_types s) (_value x))
  /\ (forall x, isbox (box_types s) x = false -> getval (box_types s) x = x).
Proof.
  intros Hok. unfold new_box.
  split; [|split; [|split; [|split]]].
  - destruct (box_type_mappings s !! py_type v) as [cls|]; split.
    + discriminate.
    + intros (e & s' & H). discriminate H.
    + intros _. eauto.
    + reflexivity.
  - now intros ->.
  - intros cls E. rewrite E.
    assert (Hbox : isbox (box_types s) (VBox cls v t n) = true).
    { simpl. apply bool_decide_eq_true_2. exact (Hok _ _ E). }
    split; [reflexivity|]. split; [exact Hbox|].
    split; [now rewrite getval_box|].
    intros Hv. rewrite getval_box by exact Hbox. simpl. now apply getval_not_box.
  - intros x. apply getval_box.
  - intros x. apply getval_not_box.
Qed.

(** Wrapping the integer 5 and unwrapping it again. *)
Lemma new_box_getval_example :
  getval (box_types int_state) (VBox "IntBox" (VInt 5) 0 vjp_root) = VInt 5.
Proof.
  refine (proj2 (proj2 (proj2 (proj1 (proj2 (proj2
    (new_box_getval (VInt 5) 0 vjp_root int_state _))) "IntBox" _))) _).
  - apply register_registry_ok, registry_ok_initial.
  - vm_compute. reflexivity.
  - reflexivity.
Defined.

(** ** The trace stack and the trace entry point *)

Lemma trace_unregistered start_node fun_ x s :
  box_type_mappings s !! py_type x = None ->
  trace start_node fun_ x s
  = (Raise (TypeError_cant_differentiate (py_type x)), entered x s).
Proof.
  intros E. unfold trace, new_trace, bind, modify, new_box. simpl. now rewrite E.
Qed.

Lemma trace_registered start_node fun_ x s cls :
  box_type_mappings s !! py_type x = Some cls ->
  let start_box := VBox cls x (top s + 1) start_node in
  let s1 := logger_info (LogCreatedBox start_box) (entered x s) in
  trace start_node fun_ x s
  = match fun_ start_box s1 with
    | (Return end_box, s2) =>
        if isbox (box_types s2) end_box && (_trace end_box =? top s + 1)
        then (Return (_value end_box, _node end_box), set_top (top s2 - 1) s2)
        else (Return (end_box, None),
              set_top (top s2 - 1)
                      (warnings_warn "Output seems independent of input." s2))
    | (Raise e, s2) => (Raise e, s2)
    end.
Proof.
  intros E. cbv zeta.
  unfold trace, new_trace, bind, modify, new_box, gets, ret, entered. simpl.
  rewrite E. simpl.
  destruct (fun_ _ _) as [[end_box|e] s2]; [|reflexivity].
  destruct (isbox (box_types s2) end_box && (_trace end_box =? top s + 1));
    reflexivity.
Qed.

(** When the traced function returns without changing [top] on balance,
    [trace] leaves [top] as it found it. *)
Lemma trace_return_restores_top start_node fun_ x s cls end_box s2 :
  box_type_mappings s !! py_type x = Some cls ->
  fun_ (VBox cls x (top s + 1) start_node)
       (logger_info (LogCreatedBox (VBox cls x (top s + 1) start_node)) (entered x s))
  = (Return end_box, s2) ->
  top s2 = top s + 1 ->
  top (snd (trace start_node fun_ x s)) = top s.
Proof.
  intros E Hfun Htop. rewrite (trace_registered _ _ _ _ _ E). cbv zeta.
  rewrite Hfun.
  destruct (isbox (box_types s2) end_box && (_trace end_box =? top s + 1));
    simpl; lia.
Qed.

(** C1 (the code at the failing input): a traced function that raises.
    Whatever the seed, the node and the state, [trace] propagates an
    exception (the function's, or the [TypeError] of an unregistered seed
    type) and [trace_stack.top] is left one above its value before the
    call: the decrement after the [yield] of [new_trace] was skipped. *)
Theorem trace_failure_keeps_top_raised (start_node : node) (x : value)
        (e : exn) (s : tracer_state) :
  exists e' s',
    trace start_node (fun _ => raise e) x s = (Raise e', s')
    /\ top s' = top s + 1
    /\ top s' <> top s.
Proof.
  destruct (box_type_mappings s !! py_type x) as [cls|] eqn:E.
  - rewrite (trace_registered _ _ _ _ _ E). cbv zeta. unfold raise.
    eexists _, _. split; [reflexivity|]. simpl. lia.
  - rewrite (trace_unregistered _ _ _ _ E).
    eexists _, _. split; [reflexivity|]. simpl. lia.
Qed.

(** C3 (as stated): inside an outer trace ([top = 0]) the traced function
    returns a box of the outer trace.  The result is not a box of the new
    trace (id 1), the diagnostic is emitted, and the first component of
    the pair is that box, still boxed. *)
Lemma independent_output_counterexample :
  exists s',
    trace vjp_root (fun _ => ret outer_box) (VInt 5) (set_top 0 int_state)
    = (Return (outer_box, None), s')
    /\ warnings s' = ["Output seems independent of input."]
    /\ isbox (box_types s') outer_box = true
    /\ getval (box_types s') outer_box <> outer_box.
Proof.
  eexists. split; [vm_compute; reflexivity|].
  split; [reflexivity|]. split; [vm_compute; reflexivity|].
  vm_compute. discriminate.
Qed.

(** C3 (amended): when the seed can be boxed and the traced function
    returns [result], [trace] returns [(result._value, result._node)] if
    [result] is a box whose trace id is the id issued for this trace;
    otherwise it emits the "output independent of input" warning and
    returns [(result, None)] with [result] exactly as the function
    returned it: a value that is not a box as it is, a box of another
    trace still boxed.  In both cases [top] is decremented. *)
Theorem trace_result (start_node : node) (fun_ : value -> M value) (x : value)
        (s s2 : tracer_state) (cls : string) (result : value) :
  box_type_mappings s !! py_type x = Some cls ->
  let trace_id := top s + 1 in
  let start_box := VBox cls x trace_id start_node in
  fun_ start_box (logger_info (LogCreatedBox start_box) (entered x s))
  = (Return result, s2) ->
  (isbox (box_types s2) result = true -> _trace result = trace_id ->
   exists n, _node result = Some n
             /\ trace start_node fun_ x s
                = (Return (_value result, Some n), set_top (top s2 - 1) s2))
  /\ (~ (isbox (box_types s2) result = true /\ _trace result = trace_id) ->
      trace start_node fun_ x s
      = (Return (result, None),
         set_top (top s2 - 1)
                 (warnings_warn "Output seems independent of input." s2))).
Proof.
  intros E trace_id start_box Hfun. subst start_box trace_id.
  pose proof (trace_registered start_node fun_ x s cls E) as Ht.
  cbv zeta in Ht. rewrite Hfun in Ht.
  split.
  - intros Hbox Hid. rewrite Ht, Hbox, Hid, Z.eqb_refl. simpl.
    destruct result; simpl in *; try discriminate. eauto.
  - intros Hnot. rewrite Ht.
    destruct (isbox (box_types s2) result) eqn:Hbox; simpl; [|reflexivity].
    destruct (Z.eqb_spec (_trace result) (top s + 1)) as [Heq|]; [|reflexivity].
    exfalso. apply Hnot. auto.
Qed.

(** Tracing [b + 2] at the seed 5. *)
Lemma trace_result_example :
  trace vjp_root (fun b => f_wrapped add_prim [b; VInt 2] []) (VInt 5) int_state
  = (Return (VInt 7,
             Some (NCall "VJPNode" (VInt 7) 2%nat [VInt 5; VInt 2] [] [0] [vjp_root])),
     set_top (-1)
       (snd (f_wrapped add_prim [VBox "IntBox" (VInt 5) 0 vjp_root; VInt 2] []
               (logger_info (LogCreatedBox (VBox "IntBox" (VInt 5) 0 vjp_root))
                            (entered (VInt 5) int_state))))).
Proof.
  destruct (proj1 (trace_result vjp_root (fun b => f_wrapped add_prim [b; VInt 2] [])
                     (VInt 5) int_state
                     (snd (f_wrapped add_prim [VBox "IntBox" (VInt 5) 0 vjp_root; VInt 2] []
                             (logger_info (LogCreatedBox (VBox "IntBox" (VInt 5) 0 vjp_root))
                                          (entered (VInt 5) int_state))))
                     "IntBox"
                     (VBox "IntBox" (VInt 7) 0
                           (NCall "VJPNode" (VInt 7) 2%nat [VInt 5; VInt 2] [] [0] [vjp_root]))
                     ltac:(vm_compute; reflexivity) ltac:(vm_compute; reflexivity))
              ltac:(vm_compute; reflexivity) ltac:(reflexivity))
    as (n & Hn & Ht).
  injection Hn as <-. exact Ht.
Defined.

(** ** wrap_util.py: selection and substitution *)

Lemma substitute_all_length (kvs : list (nat * value)) (args : list value) :
  length (substitute_all args kvs) = length args.
Proof.
  revert args; induction kvs as [|[k v] kvs IH]; intros args; [reflexivity|].
  unfold substitute_all in *. simpl. rewrite IH. apply length_insert.
Qed.

Lemma substitute_all_other (kvs : list (nat * value)) (args : list value) (pos : nat) :
  (forall j kv, kvs !! j = Some kv -> fst kv <> pos) ->
  substitute_all args kvs !! pos = args !! pos.
Proof.
  revert args; induction kvs as [|[k v] kvs IH]; intros args H; [reflexivity|].
  unfold substitute_all in *. simpl. rewrite IH.
  - apply list_lookup_insert_ne. exact (H 0%nat (k, v) eq_refl).
  - intros j kv Hj. exact (H (S j) kv Hj).
Qed.

Lemma substitute_all_last (kvs : list (nat * value)) :
  forall (args : list value) (j pos : nat) (v : value),
    kvs !! j = Some (pos, v) ->
    (forall j' kv, (j < j')%nat -> kvs !! j' = Some kv -> fst kv <> pos) ->
    (pos < length args)%nat ->
    substitute_all args kvs !! pos = Some v.
Proof.
  induction kvs as [|[k w] kvs IH]; intros args j pos v Hj Hlater Hlen;
    [discriminate|].
  destruct j as [|j]; simpl in Hj.
  - injection Hj as -> ->.
    change (substitute_all args ((pos, v) :: kvs))
      with (substitute_all (<[pos := v]> args) kvs).
    rewrite substitute_all_other.
    + now apply list_lookup_insert_eq.
    + intros j' kv Hkv. apply (Hlater (S j') kv); [lia|exact Hkv].
  - change (substitute_all args ((k, w) :: kvs))
      with (substitute_all (<[k := w]> args) kvs).
    apply (IH _ j); [exact Hj| |now rewrite length_insert].
    intros j' kv Hlt Hkv. apply (Hlater (S j') kv); [lia|exact Hkv].
Qed.

Lemma subvals_zip (n : nat) (l : list Z) (ks : list nat) :
  Forall2 (fun i k => py_index n i = Some k) l ks ->
  forall (args xs : list value),
    length args = n ->
    subvals args (zip l xs) = Some (substitute_all args (zip ks xs)).
Proof.
  induction 1 as [|i k l ks Hik _ IH]; intros args xs Hn; [reflexivity|].
  destruct xs as [|v xs]; [reflexivity|].
  simpl. unfold py_setitem. rewrite Hn, Hik.
  apply IH. now rewrite length_insert.
Qed.

Lemma py_getitem_index {A} (l : list A) (i : Z) (k : nat) :
  py_index (length l) i = Some k ->
  exists a, py_getitem l i = Some a /\ l !! k = Some a.
Proof.
  intros H. unfold py_getitem. rewrite H.
  destruct (lookup_lt_is_Some_2 l k (py_index_lt _ _ _ H)) as [a Ha].
  exists a. now rewrite Ha.
Qed.

Lemma argnum_positions (n : nat) (l : list Z) :
  Forall (fun i => is_Some (py_index n i)) l ->
  exists ks, Forall2 (fun i k => py_index n i = Some k) l ks.
Proof.
  induction 1 as [|i l [k Hk] _ [ks IH]].
  - exists []. constructor.
  - exists (k :: ks). now constructor.
Qed.

Lemma select_seq (args : list value) (l : list Z) (ks : list nat) :
  Forall2 (fun i k => py_index (length args) i = Some k) l ks ->
  exists vs, mapM (py_getitem args) l = Some vs
             /\ Forall2 (fun i v => py_getitem args i = Some v) l vs
             /\ Forall2 (fun k v => args !! k = Some v) ks vs.
Proof.
  induction 1 as [|i k l ks Hik _ (vs & Hm & H1 & H2)].
  - exists []. repeat split; constructor.
  - destruct (py_getitem_index args i k Hik) as (a & Ha & Hka).
    exists (a :: vs). split; [|split; now constructor].
    simpl. rewrite Ha. simpl. rewrite Hm. reflexivity.
Qed.

(** C6: for an [argnum] whose indices denote positions of the call's
    arguments, [nary_f] hands [unary_operator] the selected [x] (the
    argument at [argnum], or the tuple of the arguments at the indices of
    [argnum], in that order) and the closure [unary_f]; and [unary_f],
    applied to any [x'], calls [fun] with the same keyword arguments and
    with the positional arguments in which position [argnum] holds [x']
    (a collection: each position paired by [zip] with a component of [x']
    holds the component last paired with it) and every other position
    holds the argument of the original call. *)
Theorem nary_f_substitutes
        (unary_operator : (value -> M value) -> value -> list value -> kwargs_t -> M value)
        (fun_ : list value -> kwargs_t -> M value) (argnum : argnum_t)
        (nary_op_args : list value) (nary_op_kwargs : kwargs_t)
        (args : list value) (kwargs : kwargs_t) :
  argnum_valid (length args) argnum ->
  exists x,
    select_args argnum args = Some x
    /\ (forall s,
         nary_f unary_operator fun_ argnum nary_op_args nary_op_kwargs args kwargs s
         = unary_operator (unary_f fun_ argnum args kwargs) x
                          nary_op_args nary_op_kwargs s)
    /\ match argnum with
       | ArgInt i =>
           exists k,
             py_index (length args) i = Some k /\ args !! k = Some x
             /\ forall x', exists subargs,
                 (forall s, unary_f fun_ argnum args kwargs x' s = fun_ subargs kwargs s)
                 /\ length subargs = length args
                 /\ subargs !! k = Some x'
                 /\ (forall pos, pos <> k -> subargs !! pos = args !! pos)
       | ArgSeq l =>
           exists ks vs,
             Forall2 (fun i k => py_index (length args) i = Some k) l ks
             /\ x = VTuple vs
             /\ Forall2 (fun k v => args !! k = Some v) ks vs
             /\ forall xs, exists subargs,
                 (forall s, unary_f fun_ argnum args kwargs (VTuple xs) s
                            = fun_ subargs kwargs s)
                 /\ length subargs = length args
                 /\ (forall j k v, ks !! j = Some k -> xs !! j = Some v ->
                       (forall j', (j < j' < length xs)%nat -> ks !! j' <> Some k) ->
                       subargs !! k = Some v)
                 /\ (forall pos,
                       (forall j, (j < length xs)%nat -> ks !! j <> Some pos) ->
                       subargs !! pos = args !! pos)
       end.
Proof.
  destruct argnum as [i|l]; simpl; intros Hvalid.
  - destruct Hvalid as [k Hk].
    destruct (py_getitem_index args i k Hk) as (a & Ha & Hka).
    exists a. split; [exact Ha|]. split.
    { intros s. unfold nary_f, bind, lift_index. simpl. now rewrite Ha. }
    exists k. split; [exact Hk|]. split; [exact Hka|].
    intros x'. exists (<[k := x']> args).
    split; [|split; [|split]].
    + intros s. unfold unary_f, bind, lift_index. simpl.
      unfold py_setitem. now rewrite Hk.
    + apply length_insert.
    + apply list_lookup_insert_eq. exact (py_index_lt _ _ _ Hk).
    + intros pos Hne. now apply list_lookup_insert_ne.
  - destruct (argnum_positions _ _ Hvalid) as [ks Hks].
    destruct (select_seq args l ks Hks) as (vs & Hm & _ & Hvs).
    exists (VTuple vs). split; [now rewrite Hm|]. split.
    { intros s. unfold nary_f, bind, lift_index. simpl. now rewrite Hm. }
    exists ks, vs. split; [exact Hks|]. split; [reflexivity|]. split; [exact Hvs|].
    intros xs. exists (substitute_all args (zip ks xs)).
    split; [|split; [|split]].
    + intros s. unfold unary_f, bind, lift_index, py_iter, ret.
      now rewrite (subvals_zip _ l ks Hks args xs eq_refl).
    + apply substitute_all_length.
    + intros j k v Hkj Hxj Hlater.
      apply (substitute_all_last _ args j).
      * apply lookup_zip_with_Some. eauto.
      * intros j' [k' v'] Hlt Hkv. simpl.
        apply lookup_zip_with_Some in Hkv as (k'' & v'' & [= -> ->] & Hk' & Hv').
        intros ->. apply (Hlater j'); [|exact Hk'].
        split; [exact Hlt|]. now apply lookup_lt_Some in Hv'.
      * assert (Hall : Forall2 (fun k v => args !! k = Some v) ks vs) by exact Hvs.
        destruct (Forall2_lookup_l _ _ _ _ _ Hall Hkj) as (a & _ & Ha).
        now apply lookup_lt_Some in Ha.
    + intros pos Hpos. apply substitute_all_other.
      intros j [k' v'] Hkv. simpl.
      apply lookup_zip_with_Some in Hkv as (k'' & v'' & [= -> ->] & Hk' & Hv').
      intros ->. apply (Hpos j); [|exact Hk']. now apply lookup_lt_Some in Hv'.
Qed.

(** [argnum = (0, 2)] on three arguments. *)
Lemma nary_f_substitutes_example :
  exists x,
    select_args (ArgSeq [0; 2]) [VInt 1; VInt 2; VInt 3] = Some x
    /\ forall s,
        nary_f eval_at_point second_raw (ArgSeq [0; 2]) [] []
               [VInt 1; VInt 2; VInt 3] [] s
        = eval_at_point (unary_f second_raw (ArgSeq [0; 2]) [VInt 1; VInt 2; VInt 3] [])
                        x [] [] s.
Proof.
  destruct (nary_f_substitutes eval_at_point second_raw (ArgSeq [0; 2]) [] []
              [VInt 1; VInt 2; VInt 3] [])
    as (x & Hx & Hrun & _).
  - repeat constructor; vm_compute; eauto.
  - exists x. auto.
Defined.

(** ** Further properties of the trace stack, the registry and [trace] *)

(** Tracing [b + 2] at the seed 5 leaves [top] at [-1]. *)
Lemma trace_return_restores_top_example :
  top (snd (trace vjp_root (fun b => f_wrapped add_prim [b; VInt 2] [])
                  (VInt 5) int_state)) = top int_state.
Proof.
  refine (trace_return_restores_top vjp_root
            (fun b => f_wrapped add_prim [b; VInt 2] []) (VInt 5) int_state "IntBox"
            (VBox "IntBox" (VInt 7) 0
                  (NCall "VJPNode" (VInt 7) 2%nat [VInt 5; VInt 2] [] [0] [vjp_root]))
            (snd (f_wrapped add_prim [VBox "IntBox" (VInt 5) 0 vjp_root; VInt 2] []
                    (logger_info (LogCreatedBox (VBox "IntBox" (VInt 5) 0 vjp_root))
                                 (entered (VInt 5) int_state))))
            _ _ _); vm_compute; reflexivity.
Defined.

(** Trace ids grow with the nesting depth: a trace entered inside another
    gets the next id, and after both have returned [top] is back where it
    was. *)
Theorem nested_trace_ids_increase (s : tracer_state) :
  new_trace (fun outer => new_trace (fun inner => ret (outer, inner))) s
  = (Return (top s + 1, top s + 2), s).
Proof.
  unfold new_trace, ret. simpl. f_equal.
  - f_equal. f_equal. lia.
  - destruct s. unfold set_top. simpl. f_equal. lia.
Qed.

(** [Box.register] records the class in [Box.types], maps the value type
    and the class itself to the class, makes the instances of the class
    boxes, and is idempotent. *)
Theorem register_idempotent (cls : string) (value_type : pytype) (s : tracer_state) :
  let s' := register cls value_type s in
  cls ∈ box_types s'
  /\ box_type_mappings s' !! value_type = Some cls
  /\ box_type_mappings s' !! TClass cls = Some cls
  /\ (forall v t n, isbox (box_types s') (VBox cls v t n) = true)
  /\ register cls value_type s' = s'.
Proof.
  cbv zeta. unfold register. simpl.
  split; [apply elem_of_union_l, elem_of_singleton; reflexivity|]. split.
  { rewrite lookup_insert. case_decide; [reflexivity|].
    now rewrite lookup_insert_eq. }
  split; [now rewrite lookup_insert_eq|].
  split.
  { intros v t n. apply bool_decide_eq_true_2.
    apply elem_of_union_l, elem_of_singleton. reflexivity. }
  f_equal.
  - apply set_eq. intros c. rewrite !elem_of_union. tauto.
  - apply map_eq. intros ty. rewrite !lookup_insert.
    destruct (decide (TClass cls = ty)), (decide (value_type = ty)); reflexivity.
Qed.

(** Independence detection: a traced function that ignores its boxed
    argument and returns a constant that is not a box makes [trace] return
    [(constant, None)], emit the warning once, and restore [top]. *)
Theorem trace_constant_function (start_node : node) (x c : value)
        (s : tracer_state) (cls : string) :
  box_type_mappings s !! py_type x = Some cls ->
  isbox (box_types s) c = false ->
  exists s',
    trace start_node (fun _ => ret c) x s = (Return (c, None), s')
    /\ top s' = top s
    /\ warnings s' = warnings s ++ ["Output seems independent of input."]
    /\ nodes_built s' = nodes_built s.
Proof.
  intros E Hc. rewrite (trace_registered _ _ _ _ _ E). cbv zeta. unfold ret.
  simpl. rewrite Hc. simpl. eexists. split; [reflexivity|]. simpl.
  repeat split. lia.
Qed.

(** Tracing the constant function 9 at the seed 5. *)
Lemma trace_constant_function_example :
  fst (trace vjp_root (fun _ => ret (VInt 9)) (VInt 5) int_state)
  = Return (VInt 9, None).
Proof.
  destruct (trace_constant_function vjp_root (VInt 5) (VInt 9) int_state "IntBox")
    as (s' & -> & _).
  - vm_compute. reflexivity.
  - reflexivity.
  - reflexivity.
Defined.

(** ** [getval] and [notrace_primitive] *)

Lemma getval_never_box (types : gset string) (x : value) :
  isbox types (getval types x) = false.
Proof.
  induction x as [| | | |cls v IH t n]; simpl; try reflexivity.
  destruct (bool_decide (cls ∈ types)) eqn:E; [exact IH|]. simpl. exact E.
Qed.

(** [getval] never returns a box, is idempotent, and removes exactly the
    layers that are boxes: its result is the value under [box_depth]-many
    or fewer constructors, unchanged when the argument is not a box. *)
Theorem getval_unwraps_fully (types : gset string) (x : value) :
  isbox types (getval types x) = false
  /\ getval types (getval types x) = getval types x
  /\ (getval types x = x <-> isbox types x = false)
  /\ (box_depth (getval types x) <= box_depth x)%nat.
Proof.
  split; [apply getval_never_box|]. split.
  { apply getval_not_box, getval_never_box. }
  split.
  - split.
    + intros H. rewrite <- H. apply getval_never_box.
    + apply getval_not_box.
  - induction x as [| | | |cls v IH t n]; simpl; try lia.
    destruct (bool_decide (cls ∈ types)); simpl; lia.
Qed.

(** [notrace_primitive(f_raw)] hands the raw function as many positional
    arguments as it got, none of them a box: a boxed argument is replaced
    by the raw value under all its boxes, any other argument is passed as
    it is, and so are the keyword arguments.  Without a boxed argument the
    call is the raw call. *)
Theorem notrace_primitive_unboxes (f : list value -> kwargs_t -> M value)
        (args : list value) (kwargs : kwargs_t) (s : tracer_state) :
  exists argvals,
    notrace_primitive f args kwargs s = f argvals kwargs s
    /\ length argvals = length args
    /\ Forall (fun a => isbox (box_types s) a = false) argvals
    /\ (forall i a, args !! i = Some a ->
          argvals !! i = Some (getval (box_types s) a)
          /\ (isbox (box_types s) a = false -> argvals !! i = Some a))
    /\ (Forall (fun a => isbox (box_types s) a = false) args -> argvals = args).
Proof.
  exists (map (getval (box_types s)) args).
  split; [reflexivity|]. split; [apply length_map|]. split.
  { apply Forall_forall. intros a Ha. apply list_elem_of_In in Ha.
    apply in_map_iff in Ha as (b & <- & _). apply getval_never_box. }
  split.
  - intros i a Hi.
    assert (E : map (getval (box_types s)) args !! i = Some (getval (box_types s) a)).
    { change (map (getval (box_types s)) args) with (getval (box_types s) <$> args).
      rewrite list_lookup_fmap, Hi. reflexivity. }
    split; [exact E|]. intros Hbox. now rewrite E, getval_not_box.
  - intros Hall. induction Hall as [|a l Ha _ IH]; [reflexivity|].
    simpl. now rewrite IH, getval_not_box.
Qed.

(** ** A primitive that is notrace for every variant it meets *)

Lemma getval_unwrap_top (types : gset string) (m : Z) (a : value) :
  getval types (unwrap_top types m a) = getval types a.
Proof.
  unfold unwrap_top. destruct (isbox types a) eqn:Hbox; simpl; [|reflexivity].
  destruct (_trace a =? m); [|reflexivity].
  symmetry. now apply getval_box.
Qed.

Lemma layers_notrace_unwrap_top (types : gset string) (f : prim_id)
      (s : tracer_state) (m : Z) (a : value) :
  layers_notrace types f s a -> layers_notrace types f s (unwrap_top types m a).
Proof.
  unfold unwrap_top. destruct a as [| | | |cls v t n]; simpl; try tauto.
  destruct (bool_decide (cls ∈ types)) eqn:Hc; simpl.
  - destruct (t =? m); simpl; [tauto|]. now rewrite Hc.
  - now rewrite Hc.
Qed.

Lemma map_getval_no_box (types : gset string) (args : list value) :
  Forall (fun a => isbox types a = false) args -> map (getval types) args = args.
Proof.
  induction 1 as [|a l Ha _ IH]; [reflexivity|].
  simpl. now rewrite IH, getval_not_box.
Qed.

Lemma untracked_valid_no_box (types : gset string) (args : list value) :
  Forall (fun a => isbox types a = true -> 0 <= _trace a) args ->
  tracked_pairs types (top_trace_of types args) args = [] ->
  Forall (fun a => isbox types a = false) args.
Proof.
  intros Hvalid Hnil. apply Forall_forall. intros a Ha.
  destruct (isbox types a) eqn:Hbox; [exfalso|reflexivity].
  rewrite Forall_forall in Hvalid. pose proof (Hvalid a Ha Hbox) as Ht.
  apply list_elem_of_In in Ha.
  pose proof (top_trace_of_bound types args a Ha Hbox) as Hle.
  apply (tracked_nonempty types args); [lia|exact Hnil].
Qed.

Lemma layers_notrace_valid (types : gset string) (f : prim_id) (s : tracer_state)
      (a : value) :
  layers_notrace types f s a -> isbox types a = true ->
  0 <= _trace a
  /\ exists n, _node a = Some n /\ is_notrace (Some (node_type n)) f s.
Proof.
  destruct a as [| | | |cls v t n]; simpl; try discriminate.
  intros H Hc. rewrite Hc in H. destruct H as (Ht & Hn & _). eauto.
Qed.

Lemma f_wrapped_all_notrace (p : primitive_fn) (kwargs : kwargs_t)
      (s : tracer_state) (k : nat) :
  forall args,
    (args_depth args <= k)%nat ->
    Forall (layers_notrace (box_types s) (f_id p) s) args ->
    f_wrapped p args kwargs s
    = f_raw p (map (getval (box_types s)) args) kwargs s.
Proof.
  induction k as [|k IH]; intros args Hd Hall;
    destruct (tracked_pairs (box_types s) (top_trace_of (box_types s) args) args)
      as [|[i b] l] eqn:E.
  1, 3: rewrite (f_wrapped_untracked p args kwargs s E);
    rewrite map_getval_no_box; [reflexivity|];
    apply untracked_valid_no_box; [|exact E];
    eapply Forall_impl; [exact Hall|];
    intros a Ha Hbox; exact (proj1 (layers_notrace_valid _ _ _ _ Ha Hbox)).
  all: assert (Hne : tracked_pairs (box_types s) (top_trace_of (box_types s) args) args <> [])
    by (rewrite E; discriminate);
    pose proof (args_depth_unwrap_lt _ _ _ Hne) as Hlt.
  1: lia.
  assert (Hin : In (i, b) (tracked_pairs (box_types s) (top_trace_of (box_types s) args) args))
    by (rewrite E; now left).
  apply tracked_pairs_In in Hin as (Hin & Hbox & Ht).
  assert (Hb : In b args).
  { rewrite <- (enumerate_from_snd args 0). apply (in_map snd _ _ Hin). }
  rewrite Forall_forall in Hall.
  destruct (layers_notrace_valid _ _ _ _ (Hall b ltac:(now apply list_elem_of_In)) Hbox)
    as (Hb0 & n & Hn & Hnot).
  assert (Hnc : resolved_constructor (box_types s) args = Some (node_type n)).
  { unfold resolved_constructor. rewrite E. simpl. rewrite Hn. simpl.
    destruct (Z.ltb_spec (-1) (top_trace_of (box_types s) args)); [reflexivity|lia]. }
  rewrite (f_wrapped_tracked_notrace p args kwargs s Hne)
    by (rewrite Hnc; exact Hnot).
  rewrite IH.
  - f_equal. rewrite map_map. apply map_ext. intros a. apply getval_unwrap_top.
  - lia.
  - apply Forall_forall. intros a Ha. apply list_elem_of_In in Ha.
    apply in_map_iff in Ha as (a0 & <- & Ha0).
    apply layers_notrace_unwrap_top. apply Hall. now apply list_elem_of_In.
Qed.

(** A primitive registered as notrace for the node variant of every box
    layer of its positional arguments behaves as [notrace_primitive] of its
    raw function: the raw function is called once, on the arguments with
    all their boxes removed, and the wrapper changes nothing in the state
    (no node, no box). *)
Theorem primitive_notrace_everywhere (p : primitive_fn) (args : list value)
        (kwargs : kwargs_t) (s : tracer_state) :
  Forall (layers_notrace (box_types s) (f_id p) s) args ->
  f_wrapped p args kwargs s = notrace_primitive (f_raw p) args kwargs s
  /\ f_wrapped p args kwargs s
     = f_raw p (map (getval (box_types s)) args) kwargs s.
Proof.
  intros Hall.
  pose proof (f_wrapped_all_notrace p kwargs s (args_depth args) args (le_n _) Hall) as E.
  split; exact E.
Qed.

(** Addition registered as notrace for [VJPNode], called on a doubly boxed
    3 and an inner box of 4. *)
Lemma primitive_notrace_everywhere_example :
  f_wrapped add_prim [VBox "IntBox" outer_box 1 vjp_root; inner_box] []
            (register_notrace (Some "VJPNode") 2%nat (set_top 1 int_state))
  = (Return (VInt 7), register_notrace (Some "VJPNode") 2%nat (set_top 1 int_state)).
Proof.
  rewrite (proj2 (primitive_notrace_everywhere add_prim
                    [VBox "IntBox" outer_box 1 vjp_root; inner_box] []
                    (register_notrace (Some "VJPNode") 2%nat (set_top 1 int_state))
                    ltac:(repeat constructor; vm_compute; intuition discriminate))).
  vm_compute. reflexivity.
Defined.

(** ** More on the two registries and on the resolver's output *)

(** [register_notrace] adds exactly the pair it is given: afterwards an
    operation is notrace for a variant iff it is the registered pair or
    was notrace before; registering the same pair again changes nothing.
    Reading the registry, which inserts an empty set for a missing key,
    never changes which operations are notrace. *)
Theorem register_notrace_adds_pair (k k' : option string) (f f' : prim_id)
        (s : tracer_state) :
  (is_notrace k' f' (register_notrace k f s)
   <-> (k' = k /\ f' = f) \/ is_notrace k' f' s)
  /\ register_notrace k f (register_notrace k f s) = register_notrace k f s
  /\ (is_notrace k' f' (snd (notrace_lookup k s)) <-> is_notrace k' f' s)
  /\ fst (notrace_lookup k (register_notrace k f s))
     = Return ({[f]} ∪ default ∅ (notrace_primitives s !! k)).
Proof.
  unfold is_notrace, register_notrace, set_notrace, notrace_lookup. simpl.
  split; [|split; [|split]].
  - rewrite lookup_insert. destruct (decide (k = k')) as [<- | Hne]; simpl.
    + rewrite elem_of_union, elem_of_singleton. intuition congruence.
    + intuition congruence.
  - f_equal. rewrite lookup_insert_eq. simpl. rewrite insert_insert_eq.
    f_equal. apply set_eq. intros x. rewrite !elem_of_union. tauto.
  - destruct (notrace_primitives s !! k) as [ops|] eqn:E; simpl; [tauto|].
    rewrite lookup_insert. destruct (decide (k = k')) as [<- | Hne]; simpl; [|tauto].
    rewrite E. simpl. tauto.
  - now rewrite lookup_insert_eq.
Qed.

Lemma registrations_registry_ok (regs : list (string * pytype)) :
  forall s, registry_ok s ->
            registry_ok (foldl (fun st r => register (fst r) (snd r) st) s regs).
Proof.
  induction regs as [|[c ty] regs IH]; intros s Hok; [exact Hok|].
  simpl. apply IH. now apply register_registry_ok.
Qed.

Lemma registrations_grow (regs : list (string * pytype)) :
  forall s c, c ∈ box_types s ->
              c ∈ box_types (foldl (fun st r => register (fst r) (snd r) st) s regs).
Proof.
  induction regs as [|[c' ty] regs IH]; intros s c Hc; [exact Hc|].
  simpl. apply IH. unfold register. simpl. apply elem_of_union_r. exact Hc.
Qed.

(** Whatever classes are registered, in whatever order, starting from a
    registry in which every mapped class is a box class: the registry
    stays that way, no class is ever removed from [Box.types] (what was a
    box stays a box), every registered class is a box class, and whatever
    [new_box] returns is a box that holds the value, the trace id and the
    node it was given. *)
Theorem registrations_keep_boxes (regs : list (string * pytype)) (s : tracer_state) :
  registry_ok s ->
  let s' := foldl (fun st r => register (fst r) (snd r) st) s regs in
  registry_ok s'
  /\ (forall x, isbox (box_types s) x = true -> isbox (box_types s') x = true)
  /\ (forall c ty, In (c, ty) regs -> c ∈ box_types s')
  /\ (forall v t n b s'', new_box v t n s' = (Return b, s'') ->
        isbox (box_types s'') b = true
        /\ _value b = v /\ _trace b = t /\ _node b = Some n).
Proof.
  intros Hok s'.
  assert (Hok' : registry_ok s') by now apply registrations_registry_ok.
  split; [exact Hok'|]. split; [|split].
  - intros [| | | |cls v t n]; simpl; try discriminate.
    intros H. apply bool_decide_eq_true_1 in H. apply bool_decide_eq_true_2.
    now apply registrations_grow.
  - subst s'. clear Hok Hok'. revert s.
    induction regs as [|[c' ty'] regs IH]; intros s c ty Hin; [contradiction|].
    simpl. destruct Hin as [[= -> ->] | Hin].
    + apply registrations_grow. unfold register. simpl.
      apply elem_of_union_l, elem_of_singleton. reflexivity.
    + eapply IH. exact Hin.
  - intros v t n b s''. unfold new_box.
    destruct (box_type_mappings s' !! py_type v) as [cls|] eqn:E; [|discriminate].
    intros [= <- <-]. simpl. split; [|auto].
    apply bool_decide_eq_true_2. exact (Hok' _ _ E).
Qed.

(** Registering [IntBox] for [int] and [TupleBox] for [tuple] at import
    time: a tuple can then be wrapped, and the result is a box. *)
Lemma registrations_keep_boxes_example :
  isbox (box_types
           (snd (new_box (VTuple [VInt 1]) 0 vjp_root
                   (foldl (fun st r => register (fst r) (snd r) st) initial_state
                          [("IntBox", TInt); ("TupleBox", TTuple)]))))
        (VBox "TupleBox" (VTuple [VInt 1]) 0 vjp_root) = true.
Proof.
  refine (proj1 (proj2 (proj2 (proj2
    (registrations_keep_boxes [("IntBox", TInt); ("TupleBox", TTuple)] initial_state
                              registry_ok_initial))) (VTuple [VInt 1]) 0 vjp_root
    (VBox "TupleBox" (VTuple [VInt 1]) 0 vjp_root)
    (snd (new_box (VTuple [VInt 1]) 0 vjp_root
            (foldl (fun st r => register (fst r) (snd r) st) initial_state
                   [("IntBox", TInt); ("TupleBox", TTuple)]))) _)).
  vm_compute. reflexivity.
Defined.

(** What [find_top_boxed_args] returns on any argument list, trace ids
    below the sentinel included: the reported trace id is at least [-1];
    every pair of the list is a position of the call together with the
    box standing there, whose trace id is the reported one; positions are
    strictly increasing; no boxed argument has a larger trace id; the
    list is empty only when the id is [-1], and then no node variant is
    reported; an id above [-1] comes with a non-empty list and a node
    variant.  In particular a box with a trace id below [-1] is never
    tracked. *)
Theorem find_top_boxed_args_output (types : gset string) (args : list value) :
  let boxed := fst (fst (find_top_boxed_args types args)) in
  let t := snd (fst (find_top_boxed_args types args)) in
  let nc := snd (find_top_boxed_args types args) in
  -1 <= t
  /\ (forall i b, In (i, b) boxed ->
        0 <= i /\ args !! Z.to_nat i = Some b
        /\ isbox types b = true /\ _trace b = t)
  /\ StronglySorted Z.lt (map fst boxed)
  /\ (forall a, In a args -> isbox types a = true -> _trace a <= t)
  /\ (boxed = [] -> t = -1)
  /\ (t = -1 -> nc = None)
  /\ (-1 < t -> boxed <> [] /\ exists variant, nc = Some variant)
  /\ (forall i b, In (i, b) boxed -> -1 <= _trace b).
Proof.
  rewrite find_top_boxed_args_scan. cbv zeta. simpl.
  set (m := top_trace_of types args).
  pose proof (top_trace_of_sentinel types args) as Hm. fold m in Hm.
  pose proof (tracked_pairs_boxes types m args) as Hall.
  rewrite Forall_forall in Hall.
  assert (Hpairs : forall i b, In (i, b) (tracked_pairs types m args) ->
            0 <= i /\ args !! Z.to_nat i = Some b
            /\ isbox types b = true /\ _trace b = m).
  { intros i b Hin. apply list_elem_of_In in Hin.
    destruct (Hall _ Hin) as (H1 & H2 & H3 & H4). auto. }
  split; [exact Hm|]. split; [exact Hpairs|].
  split; [apply enumerate_from_sorted|].
  split; [intros a Ha Hbox; now apply top_trace_of_bound|].
  split.
  { intros Hnil. destruct (Z.eq_dec m (-1)) as [|Hne]; [assumption|].
    exfalso. apply (tracked_nonempty types args); [fold m; lia|exact Hnil]. }
  split.
  { intros ->. reflexivity. }
  split.
  - intros Hlt. pose proof (tracked_nonempty types args Hlt) as Hne. fold m in Hne.
    split; [exact Hne|].
    destruct (Z.ltb_spec (-1) m); [|lia].
    destruct (tracked_pairs types m args) as [|[i b] l] eqn:E; [contradiction|].
    destruct (Hpairs i b ltac:(now left)) as (_ & _ & Hbox & _).
    destruct b; simpl in *; try discriminate. eauto.
  - intros i b Hin. destruct (Hpairs i b Hin) as (_ & _ & _ & ->). exact Hm.
Qed.

(** ** What the primitive wrapper leaves alone *)

Lemma same_frame_refl (s : tracer_state) : same_frame s s.
Proof. unfold same_frame. repeat split; auto. Qed.

Lemma same_frame_trans (s1 s2 s3 : tracer_state) :
  same_frame s1 s2 -> same_frame s2 s3 -> same_frame s1 s3.
Proof.
  unfold same_frame.
  intros (A1 & A2 & A3 & A4 & A5 & A6 & A7) (B1 & B2 & B3 & B4 & B5 & B6 & B7).
  repeat split; try congruence.
  - intros H. apply A5, B5, H.
  - intros H. apply B5, A5, H.
  - etransitivity; eassumption.
  - etransitivity; eassumption.
Qed.

Lemma is_notrace_lookup_iff (k nc : option string) (f : prim_id) (s : tracer_state) :
  is_notrace k f (snd (notrace_lookup nc s)) <-> is_notrace k f s.
Proof.
  unfold is_notrace, notrace_lookup.
  destruct (notrace_primitives s !! nc) as [ops|] eqn:E; simpl; [tauto|].
  rewrite lookup_insert. destruct (decide (nc = k)) as [<- | Hne]; simpl; [|tauto].
  rewrite E. simpl. tauto.
Qed.

Lemma same_frame_notrace_lookup (nc : option string) (s : tracer_state) :
  same_frame s (snd (notrace_lookup nc s)).
Proof.
  destruct (notrace_lookup_frame nc s) as (H1 & H2 & H3 & H4 & H5 & H6).
  unfold same_frame. rewrite H1, H2, H3, H4, H5, H6.
  repeat split; auto; apply is_notrace_lookup_iff.
Qed.

Lemma same_frame_add_node (n : node) (s : tracer_state) : same_frame s (add_node n s).
Proof.
  unfold same_frame, add_node, is_notrace. simpl.
  repeat split; auto. now apply prefix_app_r.
Qed.

Lemma same_frame_new_box (v : value) (t : Z) (n : node) (s : tracer_state) :
  same_frame s (snd (new_box v t n s)).
Proof.
  unfold new_box. destruct (box_type_mappings s !! py_type v); simpl;
    [|apply same_frame_refl].
  unfold same_frame, logger_info, is_notrace. simpl.
  repeat split; auto. now apply prefix_app_r.
Qed.

Section Frame.
Variable p : primitive_fn.
Hypothesis f_raw_frame :
  forall args kwargs s, same_frame s (snd (f_raw p args kwargs s)).

Lemma f_wrapped_same_frame (k : nat) :
  forall args kwargs s,
    (args_depth args <= k)%nat ->
    same_frame s (snd (f_wrapped p args kwargs s)).
Proof.
  induction k as [|k IH]; intros args kwargs s Hd;
    destruct (tracked_pairs (box_types s) (top_trace_of (box_types s) args) args)
      as [|ib l] eqn:E;
    try (rewrite (f_wrapped_untracked p args kwargs s E); apply f_raw_frame);
    assert (Hne : tracked_pairs (box_types s) (top_trace_of (box_types s) args) args <> [])
      by (rewrite E; discriminate);
    pose proof (args_depth_unwrap_lt _ _ _ Hne) as Hlt.
  1: lia.
  rewrite (f_wrapped_tracked p args kwargs s Hne). rewrite E.
  unfold tracked_branch, bind.
  set (nc := resolved_constructor (box_types s) args).
  set (argvals := map (unwrap_top (box_types s) (top_trace_of (box_types s) args)) args) in *.
  rewrite notrace_lookup_eta.
  pose proof (same_frame_notrace_lookup nc s) as F1.
  set (s1 := snd (notrace_lookup nc s)) in *.
  assert (F2 : same_frame s (snd (f_wrapped p argvals kwargs s1))).
  { eapply same_frame_trans; [exact F1|]. apply IH. lia. }
  destruct (bool_decide (f_id p ∈ default ∅ (notrace_primitives s !! nc)));
    [exact F2|].
  destruct (f_wrapped p argvals kwargs s1) as [[ans|e] s2]; simpl in *; [|exact F2].
  destruct nc as [w|]; simpl; [|exact F2].
  eapply same_frame_trans; [exact F2|].
  eapply same_frame_trans; [apply same_frame_add_node|].
  apply same_frame_new_box.
Qed.

End Frame.

(** The wrapped operation touches only what its raw operation touches,
    apart from appending nodes and log records: if every call of the raw
    operation leaves the trace stack, the box registry, the warnings and
    the notrace registrations as they are and only appends to the nodes
    built and to the log, then so does every call of the wrapped
    operation.  Nodes already built are never changed or removed. *)
Theorem f_wrapped_keeps_frame (p : primitive_fn) :
  (forall args kwargs s, same_frame s (snd (f_raw p args kwargs s))) ->
  forall args kwargs s, same_frame s (snd (f_wrapped p args kwargs s)).
Proof.
  intros Hraw args kwargs s.
  apply (f_wrapped_same_frame p Hraw (args_depth args)). lia.
Qed.

Lemma add_raw_pure (args : list value) (kwargs : kwargs_t) (s : tracer_state) :
  snd (add_raw args kwargs s) = s.
Proof.
  unfold add_raw.
  destruct args as [|[] [|[] [|]]]; reflexivity.
Qed.

(** Addition on an outer and an inner box: two nodes are appended, [top]
    stays. *)
Lemma f_wrapped_keeps_frame_example :
  same_frame (set_top 1 int_state)
             (snd (f_wrapped add_prim [outer_box; inner_box] [] (set_top 1 int_state))).
Proof.
  apply (f_wrapped_keeps_frame add_prim).
  intros args kwargs s. simpl. rewrite add_raw_pure. apply same_frame_refl.
Defined.

(** ** One trace, one boxed argument: the shape of the recorded graph *)

Lemma filter_tracked_no_box (types : gset string) (m : Z) (rest : list value) (k : nat) :
  Forall (fun a => isbox types a = false) rest ->
  List.filter (is_tracked types m) (enumerate_from k rest) = [].
Proof.
  intros H. revert k. induction H as [|a l Ha _ IH]; intros k; [reflexivity|].
  simpl. unfold is_tracked at 1. simpl. rewrite Ha. simpl. apply IH.
Qed.

Lemma boxed_traces_no_box (types : gset string) (rest : list value) :
  Forall (fun a => isbox types a = false) rest -> boxed_traces types rest = [].
Proof.
  unfold boxed_traces. induction 1 as [|a l Ha _ IH]; [reflexivity|].
  simpl. now rewrite Ha.
Qed.

Lemma map_unwrap_top_no_box (types : gset string) (m : Z) (rest : list value) :
  Forall (fun a => isbox types a = false) rest ->
  map (unwrap_top types m) rest = rest.
Proof.
  induction 1 as [|a l Ha _ IH]; [reflexivity|].
  simpl. rewrite IH. unfold unwrap_top. now rewrite Ha.
Qed.

Section BoxFirst.
Variable p : primitive_fn.
Variables (c : string) (v : value) (t : Z) (n : node).
Variables (rest : list value) (kwargs : kwargs_t) (s : tracer_state).
Hypothesis Hc : c ∈ box_types s.
Hypothesis Ht : 0 <= t.
Hypothesis Hv : isbox (box_types s) v = false.
Hypothesis Hrest : Forall (fun a => isbox (box_types s) a = false) rest.
Hypothesis Hnot : ~ is_notrace (Some (node_type n)) (f_id p) s.

Lemma box_first_top_trace :
  top_trace_of (box_types s) (VBox c v t n :: rest) = t.
Proof.
  unfold top_trace_of, boxed_traces. simpl.
  rewrite bool_decide_eq_true_2 by exact Hc. simpl.
  fold (boxed_traces (box_types s) rest).
  rewrite boxed_traces_no_box by exact Hrest. simpl. lia.
Qed.

Lemma box_first_tracked :
  tracked_pairs (box_types s) t (VBox c v t n :: rest) = [(0, VBox c v t n)].
Proof.
  unfold tracked_pairs, enumerate. simpl. unfold is_tracked at 1. simpl.
  rewrite bool_decide_eq_true_2 by exact Hc. rewrite Z.eqb_refl. simpl.
  now rewrite filter_tracked_no_box.
Qed.

Lemma f_wrapped_box_first :
  f_wrapped p (VBox c v t n :: rest) kwargs s
  = (ans <- f_raw p (v :: rest) kwargs ;;
     nd <- call_node_constructor (Some (node_type n)) ans (f_id p)
                                 (v :: rest) kwargs [0] [n] ;;
     new_box ans t nd) (snd (notrace_lookup (Some (node_type n)) s)).
Proof.
  pose proof box_first_top_trace as Hm. pose proof box_first_tracked as Htr.
  assert (Hnc : resolved_constructor (box_types s) (VBox c v t n :: rest)
                = Some (node_type n)).
  { unfold resolved_constructor. rewrite Hm, Htr. simpl.
    destruct (Z.ltb_spec (-1) t); [reflexivity|lia]. }
  assert (Hargs : map (unwrap_top (box_types s) t) (VBox c v t n :: rest) = v :: rest).
  { simpl. rewrite map_unwrap_top_no_box by exact Hrest.
    unfold unwrap_top. simpl. rewrite bool_decide_eq_true_2 by exact Hc.
    now rewrite Z.eqb_refl. }
  pose proof (f_wrapped_tracked_traced p (VBox c v t n :: rest) kwargs s) as H.
  cbv zeta in H. rewrite Hm, Htr, Hnc, Hargs in H.
  rewrite H; [|discriminate|exact Hnot].
  unfold bind at 1 3.
  rewrite f_wrapped_no_box; [reflexivity|].
  destruct (notrace_lookup_frame (Some (node_type n)) s) as (_ & -> & _).
  constructor; assumption.
Qed.

(** The state after the call, when the raw operation is pure. *)
Lemma f_wrapped_box_first_pure (ans : value) (c' : string) :
  (forall st, f_raw p (v :: rest) kwargs st = (Return ans, st)) ->
  box_type_mappings s !! py_type ans = Some c' ->
  let nd := NCall (node_type n) ans (f_id p) (v :: rest) kwargs [0] [n] in
  exists s',
    f_wrapped p (VBox c v t n :: rest) kwargs s = (Return (VBox c' ans t nd), s')
    /\ same_frame s s'
    /\ nodes_built s' = nodes_built s ++ [nd].
Proof.
  intros Hraw Hans nd. rewrite f_wrapped_box_first. unfold bind. rewrite Hraw.
  simpl. unfold new_box. simpl.
  destruct (notrace_lookup_frame (Some (node_type n)) s) as (_ & _ & Hmap & Hnodes & _).
  rewrite Hmap, Hans. eexists. split; [reflexivity|]. split.
  - eapply same_frame_trans; [apply same_frame_notrace_lookup|].
    eapply same_frame_trans; [apply (same_frame_add_node nd)|].
    unfold same_frame, logger_info, is_notrace. simpl.
    repeat split; auto. now apply prefix_app_r.
  - simpl. now rewrite Hnodes.
Qed.

End BoxFirst.

(** Graph shape: tracing the composition of two wrapped operations, each
    applied to the traced value followed by plain arguments, with pure raw
    operations, returns the raw result together with a terminal node
    whose only parent is the node of the first call, whose only parent is
    the start node; both nodes record position 0 as tracked and the
    unboxed arguments; exactly these two nodes are appended, in call
    order; no warning is emitted and [top] is restored. *)
Theorem trace_chain_records_graph (start_node : node) (p1 p2 : primitive_fn)
        (rest1 rest2 : list value) (kw1 kw2 : kwargs_t) (x v1 v2 : value)
        (s : tracer_state) (cx c1 c2 : string) :
  -1 <= top s ->
  registry_ok s ->
  box_type_mappings s !! py_type x = Some cx ->
  box_type_mappings s !! py_type v1 = Some c1 ->
  box_type_mappings s !! py_type v2 = Some c2 ->
  isbox (box_types s) x = false ->
  isbox (box_types s) v1 = false ->
  Forall (fun a => isbox (box_types s) a = false) rest1 ->
  Forall (fun a => isbox (box_types s) a = false) rest2 ->
  (forall st, f_raw p1 (x :: rest1) kw1 st = (Return v1, st)) ->
  (forall st, f_raw p2 (v1 :: rest2) kw2 st = (Return v2, st)) ->
  ~ is_notrace (Some (node_type start_node)) (f_id p1) s ->
  ~ is_notrace (Some (node_type start_node)) (f_id p2) s ->
  let n1 := NCall (node_type start_node) v1 (f_id p1) (x :: rest1) kw1 [0]
                  [start_node] in
  let n2 := NCall (node_type start_node) v2 (f_id p2) (v1 :: rest2) kw2 [0] [n1] in
  exists s',
    trace start_node
          (fun b => y <- f_wrapped p1 (b :: rest1) kw1 ;; f_wrapped p2 (y :: rest2) kw2)
          x s
    = (Return (v2, Some n2), s')
    /\ top s' = top s
    /\ nodes_built s' = nodes_built s ++ [n1; n2]
    /\ warnings s' = warnings s.
Proof.
  intros Htop Hok Hx Hv1 Hv2 Hbx Hbv1 Hr1 Hr2 Hraw1 Hraw2 Hnot1 Hnot2 n1 n2.
  rewrite (trace_registered _ _ _ _ _ Hx). cbv zeta.
  set (S1 := logger_info (LogCreatedBox (VBox cx x (top s + 1) start_node)) (entered x s)).
  assert (F1 : box_types S1 = box_types s /\ box_type_mappings S1 = box_type_mappings s
               /\ (forall k f, is_notrace k f S1 <-> is_notrace k f s)
               /\ top S1 = top s + 1 /\ nodes_built S1 = nodes_built s
               /\ warnings S1 = warnings s)
    by (unfold is_notrace; simpl; repeat split; tauto).
  destruct F1 as (Ft1 & Fm1 & Fn1 & Ftop1 & Fnodes1 & Fw1).
  destruct (f_wrapped_box_first_pure p1 cx x (top s + 1) start_node rest1 kw1 S1)
    with (ans := v1) (c' := c1) as (S2 & E1 & F2 & Hnodes2).
  { rewrite Ft1. exact (Hok _ _ Hx). }
  { lia. }
  { now rewrite Ft1. }
  { now rewrite Ft1. }
  { rewrite Fn1. exact Hnot1. }
  { exact Hraw1. }
  { now rewrite Fm1. }
  cbv zeta in E1, Hnodes2. fold n1 in E1, Hnodes2.
  destruct F2 as (Ftop2 & Ft2 & Fm2 & Fw2 & Fn2 & _ & _).
  destruct (f_wrapped_box_first_pure p2 c1 v1 (top s + 1) n1 rest2 kw2 S2)
    with (ans := v2) (c' := c2) as (S3 & E2 & F3 & Hnodes3).
  { rewrite Ft2, Ft1. exact (Hok _ _ Hv1). }
  { lia. }
  { now rewrite Ft2, Ft1. }
  { now rewrite Ft2, Ft1. }
  { simpl. rewrite Fn2, Fn1. exact Hnot2. }
  { exact Hraw2. }
  { now rewrite Fm2, Fm1. }
  cbv zeta in E2, Hnodes3. simpl node_type in E2, Hnodes3. fold n2 in E2, Hnodes3.
  destruct F3 as (Ftop3 & Ft3 & Fm3 & Fw3 & _).
  unfold bind at 1. rewrite E1, E2.
  assert (Hbox : isbox (box_types S3) (VBox c2 v2 (top s + 1) n2) = true).
  { simpl. apply bool_decide_eq_true_2. rewrite Ft3, Ft2, Ft1. exact (Hok _ _ Hv2). }
  rewrite Hbox. simpl _trace. rewrite Z.eqb_refl. simpl.
  eexists. split; [reflexivity|]. simpl.
  split; [lia|]. split.
  - rewrite Hnodes3, Hnodes2, Fnodes1, <- app_assoc. reflexivity.
  - congruence.
Qed.

(** Tracing [(b + 2) + 10] at the seed 5. *)
Lemma trace_chain_records_graph_example :
  exists s',
    trace vjp_root
          (fun b => y <- f_wrapped add_prim [b; VInt 2] [] ;;
                    f_wrapped add_prim [y; VInt 10] [])
          (VInt 5) int_state
    = (Return (VInt 17,
               Some (NCall "VJPNode" (VInt 17) 2%nat [VInt 7; VInt 10] [] [0]
                           [NCall "VJPNode" (VInt 7) 2%nat [VInt 5; VInt 2] [] [0]
                                  [vjp_root]])), s')
    /\ top s' = top int_state.
Proof.
  destruct (trace_chain_records_graph vjp_root add_prim add_prim [VInt 2] [VInt 10]
              [] [] (VInt 5) (VInt 7) (VInt 17) int_state "IntBox" "IntBox" "IntBox")
    as (s' & E & Htop & _).
  - vm_compute. discriminate.
  - apply register_registry_ok, registry_ok_initial.
  - vm_compute. reflexivity.
  - vm_compute. reflexivity.
  - vm_compute. reflexivity.
  - reflexivity.
  - reflexivity.
  - repeat constructor.
  - repeat constructor.
  - reflexivity.
  - reflexivity.
  - unfold is_notrace. vm_compute. intros H. discriminate H.
  - unfold is_notrace. vm_compute. intros H. discriminate H.
  - exists s'. split; [exact E|exact Htop].
Defined.

(** ** Nested traces *)

Section OuterInner.
Variable p : primitive_fn.
Variables (c1 c2 : string) (v1 v2 : value) (t1 t2 : Z) (n1 n2 : node).
Variables (kwargs : kwargs_t) (s : tracer_state).
Hypothesis Hc1 : c1 ∈ box_types s.
Hypothesis Hc2 : c2 ∈ box_types s.
Hypothesis Ht : 0 <= t1 < t2.
Hypothesis Hnot : ~ is_notrace (Some (node_type n2)) (f_id p) s.

(** With a box of an outer trace and a box of an inner trace, only the
    inner one is unwrapped and tracked at this level. *)
Lemma f_wrapped_outer_inner :
  f_wrapped p [VBox c1 v1 t1 n1; VBox c2 v2 t2 n2] kwargs s
  = (ans <- f_wrapped p [VBox c1 v1 t1 n1; v2] kwargs ;;
     nd <- call_node_constructor (Some (node_type n2)) ans (f_id p)
                                 [VBox c1 v1 t1 n1; v2] kwargs [1] [n2] ;;
     new_box ans t2 nd) (snd (notrace_lookup (Some (node_type n2)) s)).
Proof.
  assert (Hm : top_trace_of (box_types s) [VBox c1 v1 t1 n1; VBox c2 v2 t2 n2] = t2).
  { unfold top_trace_of, boxed_traces. simpl.
    rewrite !bool_decide_eq_true_2 by assumption. simpl. lia. }
  assert (Htr : tracked_pairs (box_types s) t2 [VBox c1 v1 t1 n1; VBox c2 v2 t2 n2]
                = [(1, VBox c2 v2 t2 n2)]).
  { unfold tracked_pairs, enumerate, is_tracked. simpl.
    rewrite !bool_decide_eq_true_2 by assumption. rewrite Z.eqb_refl.
    destruct (Z.eqb_spec t1 t2); [lia|reflexivity]. }
  assert (Hnc : resolved_constructor (box_types s) [VBox c1 v1 t1 n1; VBox c2 v2 t2 n2]
                = Some (node_type n2)).
  { unfold resolved_constructor. rewrite Hm, Htr. simpl.
    destruct (Z.ltb_spec (-1) t2); [reflexivity|lia]. }
  assert (Hargs : map (unwrap_top (box_types s) t2) [VBox c1 v1 t1 n1; VBox c2 v2 t2 n2]
                  = [VBox c1 v1 t1 n1; v2]).
  { unfold unwrap_top. simpl. rewrite !bool_decide_eq_true_2 by assumption.
    rewrite Z.eqb_refl. destruct (Z.eqb_spec t1 t2); [lia|reflexivity]. }
  pose proof (f_wrapped_tracked_traced p [VBox c1 v1 t1 n1; VBox c2 v2 t2 n2] kwargs s) as H.
  cbv zeta in H. rewrite Hm, Htr, Hnc, Hargs in H.
  apply H; [discriminate|exact Hnot].
Qed.

End OuterInner.

(** Nested traces compose: an outer trace over [x] whose function runs an
    inner trace over [y] and applies a wrapped binary operation to the
    outer box and the inner box.  At the call only the inner box is
    tracked (position 1, parent the inner start node) and the outer box
    stays boxed among that node's arguments; the recursive call tracks
    the outer box (position 0, parent the outer start node).  The inner
    trace returns the outer trace's box as its value, so the outer trace
    ends with the raw result and the outer node; two nodes are built, no
    warning is emitted and [top] is restored. *)
Theorem nested_trace_composes (p : primitive_fn) (outer_node inner_node : node)
        (kwargs : kwargs_t) (x y v : value) (s : tracer_state) (cx cy cv : string) :
  -1 <= top s ->
  registry_ok s ->
  box_type_mappings s !! py_type x = Some cx ->
  box_type_mappings s !! py_type y = Some cy ->
  box_type_mappings s !! py_type v = Some cv ->
  box_type_mappings s !! TClass cv = Some cv ->
  isbox (box_types s) x = false ->
  isbox (box_types s) y = false ->
  (forall st, f_raw p [x; y] kwargs st = (Return v, st)) ->
  ~ is_notrace (Some (node_type outer_node)) (f_id p) s ->
  ~ is_notrace (Some (node_type inner_node)) (f_id p) s ->
  let outer_box := VBox cx x (top s + 1) outer_node in
  let node_a := NCall (node_type outer_node) v (f_id p) [x; y] kwargs [0]
                      [outer_node] in
  let box_a := VBox cv v (top s + 1) node_a in
  let node_b := NCall (node_type inner_node) box_a (f_id p) [outer_box; y] kwargs [1]
                      [inner_node] in
  exists s',
    trace outer_node
          (fun b1 =>
             r <- trace inner_node (fun b2 => f_wrapped p [b1; b2] kwargs) y ;;
             ret (fst r))
          x s
    = (Return (v, Some node_a), s')
    /\ top s' = top s
    /\ nodes_built s' = nodes_built s ++ [node_a; node_b]
    /\ warnings s' = warnings s.
Proof.
  intros Htop Hok Hx Hy Hv Hcv Hbx Hby Hraw Hnota Hnotb outer_box node_a box_a node_b.
  rewrite (trace_registered _ _ _ _ _ Hx). cbv zeta. fold outer_box.
  set (S1 := logger_info (LogCreatedBox outer_box) (entered x s)).
  assert (F1 : box_types S1 = box_types s /\ box_type_mappings S1 = box_type_mappings s
               /\ (forall k f, is_notrace k f S1 <-> is_notrace k f s)
               /\ top S1 = top s + 1 /\ nodes_built S1 = nodes_built s
               /\ warnings S1 = warnings s)
    by (unfold is_notrace; simpl; repeat split; tauto).
  destruct F1 as (Ft1 & Fm1 & Fn1' & Ftop1 & Fnodes1 & Fw1).
  unfold bind at 1.
  assert (Hy1 : box_type_mappings S1 !! py_type y = Some cy) by now rewrite Fm1.
  rewrite (trace_registered inner_node _ y S1 cy Hy1). cbv zeta.
  rewrite Ftop1. replace (top s + 1 + 1) with (top s + 2) by lia.
  set (inner_box := VBox cy y (top s + 2) inner_node).
  set (S2 := logger_info (LogCreatedBox inner_box) (entered y S1)).
  assert (F2 : box_types S2 = box_types s /\ box_type_mappings S2 = box_type_mappings s
               /\ (forall k f, is_notrace k f S2 <-> is_notrace k f s)
               /\ top S2 = top s + 2 /\ nodes_built S2 = nodes_built s
               /\ warnings S2 = warnings s).
  { unfold is_notrace in *. simpl. repeat split; try tauto; try lia;
      try apply Fn1'. }
  destruct F2 as (Ft2 & Fm2 & Fn2 & Ftop2 & Fnodes2 & Fw2).
  unfold outer_box at 1. unfold inner_box at 1.
  rewrite (f_wrapped_outer_inner p cx cy x y (top s + 1) (top s + 2)
             outer_node inner_node kwargs S2);
    [|rewrite Ft2; exact (Hok _ _ Hx)|rewrite Ft2; exact (Hok _ _ Hy)|lia
     |rewrite Fn2; exact Hnotb].
  set (S3 := snd (notrace_lookup (Some (node_type inner_node)) S2)).
  pose proof (same_frame_notrace_lookup (Some (node_type inner_node)) S2) as F3.
  fold S3 in F3. destruct F3 as (Ftop3 & Ft3 & Fm3 & Fw3 & Fn3 & _ & _).
  destruct (notrace_lookup_frame (Some (node_type inner_node)) S2)
    as (_ & _ & _ & Fnodes3 & _). fold S3 in Fnodes3.
  destruct (f_wrapped_box_first_pure p cx x (top s + 1) outer_node [y] kwargs S3)
    with (ans := v) (c' := cv) as (S4 & E4 & F4 & Hnodes4).
  { rewrite Ft3, Ft2. exact (Hok _ _ Hx). }
  { lia. }
  { now rewrite Ft3, Ft2. }
  { constructor; [now rewrite Ft3, Ft2|constructor]. }
  { rewrite Fn3, Fn2. exact Hnota. }
  { exact Hraw. }
  { now rewrite Fm3, Fm2. }
  cbv zeta in E4, Hnodes4. fold outer_box node_a box_a in E4, Hnodes4.
  destruct F4 as (Ftop4 & Ft4 & Fm4 & Fw4 & _).
  unfold bind at 1. fold outer_box. rewrite E4.
  unfold bind, call_node_constructor, new_box. simpl.
  rewrite Fm4, Fm3, Fm2, Hcv. fold node_b. simpl.
  rewrite !bool_decide_eq_true_2
    by (rewrite ?Ft4, ?Ft3, ?Ft2; first [exact (Hok _ _ Hv) | exact (Hok _ _ Hcv)]).
  rewrite Z.eqb_refl. simpl. unfold ret. simpl.
  rewrite bool_decide_eq_true_2 by (rewrite Ft4, Ft3, Ft2; exact (Hok _ _ Hv)).
  rewrite Z.eqb_refl. simpl.
  eexists. split; [reflexivity|]. simpl.
  split; [rewrite Ftop4, Ftop3, Ftop2; lia|]. split.
  - rewrite Hnodes4, Fnodes3, Fnodes2, <- app_assoc. reflexivity.
  - congruence.
Qed.

(** An outer trace at the seed 5 around an inner trace at the seed 7 of
    [b1 + b2]. *)
Lemma nested_trace_composes_example :
  exists s',
    trace vjp_root
          (fun b1 =>
             r <- trace vjp_root (fun b2 => f_wrapped add_prim [b1; b2] []) (VInt 7) ;;
             ret (fst r))
          (VInt 5) int_state
    = (Return (VInt 12,
               Some (NCall "VJPNode" (VInt 12) 2%nat [VInt 5; VInt 7] [] [0]
                           [vjp_root])), s')
    /\ top s' = top int_state.
Proof.
  destruct (nested_trace_composes add_prim vjp_root vjp_root [] (VInt 5) (VInt 7)
              (VInt 12) int_state "IntBox" "IntBox" "IntBox")
    as (s' & E & Htop & _).
  - vm_compute. discriminate.
  - apply register_registry_ok, registry_ok_initial.
  - vm_compute. reflexivity.
  - vm_compute. reflexivity.
  - vm_compute. reflexivity.
  - vm_compute. reflexivity.
  - reflexivity.
  - reflexivity.
  - reflexivity.
  - unfold is_notrace. vm_compute. intros H. discriminate H.
  - unfold is_notrace. vm_compute. intros H. discriminate H.
  - exists s'. split; [exact E|exact Htop].
Defined.

(** ** Failures of the raw operation *)

Lemma layers_valid_unwrap_top (types : gset string) (m : Z) (a : value) :
  layers_valid types a -> layers_valid types (unwrap_top types m a).
Proof.
  unfold unwrap_top. destruct a as [| | | |cls v t n]; simpl; try tauto.
  destruct (bool_decide (cls ∈ types)) eqn:Hc; simpl.
  - destruct (t =? m); simpl; [tauto|]. now rewrite Hc.
  - now rewrite Hc.
Qed.

Lemma layers_valid_trace (types : gset string) (a : value) :
  layers_valid types a -> isbox types a = true -> 0 <= _trace a.
Proof.
  destruct a as [| | | |cls v t n]; simpl; try discriminate.
  intros H Hc. rewrite Hc in H. tauto.
Qed.

Lemma f_wrapped_raw_failure (p : primitive_fn) (kwargs : kwargs_t) (k : nat) :
  forall args s,
    (args_depth args <= k)%nat ->
    Forall (layers_valid (box_types s)) args ->
    exists s1,
      same_frame s s1 /\ nodes_built s1 = nodes_built s /\ log s1 = log s
      /\ forall e s2,
          f_raw p (map (getval (box_types s)) args) kwargs s1 = (Raise e, s2) ->
          f_wrapped p args kwargs s = (Raise e, s2).
Proof.
  induction k as [|k IH]; intros args s Hd Hall;
    destruct (tracked_pairs (box_types s) (top_trace_of (box_types s) args) args)
      as [|ib l] eqn:E.
  1, 3: exists s; split; [apply same_frame_refl|]; split; [reflexivity|];
    split; [reflexivity|]; intros e s2;
    rewrite map_getval_no_box, (f_wrapped_untracked p args kwargs s E); [tauto|];
    apply untracked_valid_no_box; [|exact E];
    eapply Forall_impl; [exact Hall|]; intros a Ha Hbox;
    exact (layers_valid_trace _ _ Ha Hbox).
  all: assert (Hne : tracked_pairs (box_types s) (top_trace_of (box_types s) args) args <> [])
    by (rewrite E; discriminate);
    pose proof (args_depth_unwrap_lt _ _ _ Hne) as Hlt.
  1: lia.
  set (nc := resolved_constructor (box_types s) args).
  set (m := top_trace_of (box_types s) args) in *.
  set (argvals := map (unwrap_top (box_types s) m) args) in *.
  pose proof (same_frame_notrace_lookup nc s) as F1.
  destruct (notrace_lookup_frame nc s) as (_ & Ft & _ & Fnodes & Flog & _).
  set (s' := snd (notrace_lookup nc s)) in *.
  destruct (IH argvals s') as (s1 & F2 & Hnodes & Hlog & Hraise).
  { lia. }
  { rewrite Ft. apply Forall_forall. intros a Ha. apply list_elem_of_In in Ha.
    apply in_map_iff in Ha as (a0 & <- & Ha0).
    apply layers_valid_unwrap_top. rewrite Forall_forall in Hall.
    apply Hall. now apply list_elem_of_In. }
  exists s1. split; [eapply same_frame_trans; eassumption|].
  split; [congruence|]. split; [congruence|].
  intros e s2 Hraw.
  assert (Hrec : f_wrapped p argvals kwargs s' = (Raise e, s2)).
  { apply Hraise. rewrite Ft. unfold argvals. rewrite map_map.
    rewrite (map_ext _ (getval (box_types s))); [exact Hraw|].
    intros a. apply getval_unwrap_top. }
  rewrite (f_wrapped_tracked p args kwargs s Hne). fold m. rewrite E.
  unfold tracked_branch, bind. fold nc argvals.
  rewrite notrace_lookup_eta. fold s'.
  destruct (bool_decide (f_id p ∈ default ∅ (notrace_primitives s !! nc)));
    rewrite Hrec; reflexivity.
Qed.

(** When every box layer of the positional arguments carries a trace id
    issued by the trace stack, the wrapped operation calls the raw
    operation on the arguments with all their boxes removed, before any
    node or box has been built; and if that call raises, the wrapped
    operation raises the same exception and leaves the state as the raw
    operation left it: the failure is neither swallowed nor rewrapped,
    and no node is built for the failed call. *)
Theorem raw_failure_propagates (p : primitive_fn) (args : list value)
        (kwargs : kwargs_t) (s : tracer_state) :
  Forall (layers_valid (box_types s)) args ->
  exists s1,
    same_frame s s1 /\ nodes_built s1 = nodes_built s /\ log s1 = log s
    /\ forall e s2,
        f_raw p (map (getval (box_types s)) args) kwargs s1 = (Raise e, s2) ->
        f_wrapped p args kwargs s = (Raise e, s2).
Proof.
  intros Hall. apply (f_wrapped_raw_failure p kwargs (args_depth args)); [lia|exact Hall].
Qed.

(** Addition applied to a box of [None]: the raw addition fails, and so
    does the wrapped one, with nothing built. *)
Lemma raw_failure_propagates_example :
  exists s2,
    f_wrapped add_prim [VBox "IntBox" VNone 0 vjp_root; VInt 1] [] int_state
    = (Raise (UserError 1), s2)
    /\ nodes_built s2 = [].
Proof.
  destruct (raw_failure_propagates add_prim [VBox "IntBox" VNone 0 vjp_root; VInt 1] []
              int_state)
    as (s1 & _ & Hnodes & _ & Hraise).
  - repeat constructor; vm_compute; intuition discriminate.
  - exists s1. split; [|exact Hnodes].
    apply Hraise. vm_compute. reflexivity.
Defined.

(** ** wrap_util.py: bounds and the point of evaluation *)

Lemma py_getitem_is_Some {A} (l : list A) (i : Z) :
  is_Some (py_getitem l i) <-> is_Some (py_index (length l) i).
Proof.
  split.
  - unfold py_getitem. destruct (py_index (length l) i); [eauto|].
    intros [a Ha]. discriminate Ha.
  - intros [k Hk]. destruct (py_getitem_index l i k Hk) as (a & Ha & _). eauto.
Qed.

(** An [argnum] with an index that denotes no position of the call's
    arguments makes [nary_f] raise the lookup error when it selects [x]:
    the unary operator is not called and the state is unchanged,
    whatever the operator and the function are. *)
Theorem nary_f_out_of_range
        (unary_operator : (value -> M value) -> value -> list value -> kwargs_t -> M value)
        (fun_ : list value -> kwargs_t -> M value) (argnum : argnum_t)
        (nary_op_args : list value) (nary_op_kwargs : kwargs_t)
        (args : list value) (kwargs : kwargs_t) (s : tracer_state) :
  ~ argnum_valid (length args) argnum ->
  select_args argnum args = None
  /\ nary_f unary_operator fun_ argnum nary_op_args nary_op_kwargs args kwargs s
     = (Raise IndexError, s).
Proof.
  intros Hbad.
  assert (E : select_args argnum args = None).
  { destruct argnum as [i|l]; simpl in *.
    - destruct (py_getitem args i) eqn:Eg; [exfalso|reflexivity].
      apply Hbad, py_getitem_is_Some. rewrite Eg. eauto.
    - destruct (mapM (py_getitem args) l) as [vs|] eqn:Em; [exfalso|reflexivity].
      apply Hbad. assert (Hs : is_Some (mapM (py_getitem args) l)) by (rewrite Em; eauto).
      apply mapM_is_Some in Hs. eapply Forall_impl; [exact Hs|].
      intros i Hi. now apply py_getitem_is_Some. }
  split; [exact E|]. unfold nary_f, bind. now rewrite E.
Qed.

(** [argnum = (0, 3)] on three arguments. *)
Lemma nary_f_out_of_range_example :
  nary_f eval_at_point second_raw (ArgSeq [0; 3]) [] []
         [VInt 1; VInt 2; VInt 3] [] int_state
  = (Raise IndexError, int_state).
Proof.
  refine (proj2 (nary_f_out_of_range eval_at_point second_raw (ArgSeq [0; 3]) [] []
                   [VInt 1; VInt 2; VInt 3] [] int_state _)).
  simpl. intros H. inversion H as [|? ? _ H2]; subst.
  inversion H2 as [|? ? H3 _]; subst. destruct H3 as [k Hk]. vm_compute in Hk.
  discriminate Hk.
Defined.

Lemma subvals_zip_same (args : list value) (l : list Z) (vs : list value) :
  Forall2 (fun i v => py_getitem args i = Some v) l vs ->
  subvals args (zip l vs) = Some args.
Proof.
  induction 1 as [|i v l vs Hi _ IH]; [reflexivity|].
  simpl. unfold py_setitem. unfold py_getitem in Hi.
  destruct (py_index (length args) i) as [k|]; [|discriminate].
  rewrite list_insert_id by exact Hi. exact IH.
Qed.

(** Evaluating the closure at the selected point is the original call:
    when [nary_f] selects [x] from the arguments, [unary_f] applied to
    that same [x] calls [fun] with exactly the original positional and
    keyword arguments, for a single index and for a collection (negative
    and repeated indices included). *)
Theorem unary_f_at_selected_point
        (fun_ : list value -> kwargs_t -> M value) (argnum : argnum_t)
        (args : list value) (kwargs : kwargs_t) (x : value) (s : tracer_state) :
  select_args argnum args = Some x ->
  unary_f fun_ argnum args kwargs x s = fun_ args kwargs s.
Proof.
  unfold unary_f, bind, lift_index.
  destruct argnum as [i|l]; simpl.
  - intros Hx. unfold py_setitem. unfold py_getitem in Hx.
    destruct (py_index (length args) i) as [k|]; [|discriminate].
    now rewrite list_insert_id.
  - destruct (mapM (py_getitem args) l) as [vs|] eqn:Em; [|discriminate].
    intros [= <-]. simpl. apply mapM_Some in Em.
    now rewrite (subvals_zip_same args l vs Em).
Qed.

(** [argnum = (-1, 0)] on three arguments: the selected point is
    [(3, 1)], and the closure at it calls the function on the original
    arguments. *)
Lemma unary_f_at_selected_point_example :
  unary_f second_raw (ArgSeq [-1; 0]) [VInt 1; VInt 2; VInt 3] []
          (VTuple [VInt 3; VInt 1]) int_state
  = second_raw [VInt 1; VInt 2; VInt 3] [] int_state.
Proof.
  apply (unary_f_at_selected_point second_raw (ArgSeq [-1; 0])).
  vm_compute. reflexivity.
Defined.
